(** * AprilTagNode: detection-to-pose pipeline of apriltag_ros

    A shallow embedding of [src/AprilTagNode.cpp]: the pose estimator
    [getPose], the constructor of [AprilTagNode], the frame callback
    [onCamera] and the reconfiguration callback [onParameter].

    Numbers.  The C++ code computes on [double].  Every numeric definition
    below is written once over a scalar interface [Scalar] and used at
    three instances:
    - [float], Rocq's primitive IEEE 754 binary64 numbers, which is what
      the program runs on (round to nearest, no fused operations); the
      definitions evaluate there, so concrete inputs can be replayed;
    - [R], the real numbers, for the algebraic laws that hold of the
      formulas when rounding is left out;
    - [option R], the real numbers with a mark for the undefined, where a
      quotient by zero and the square root of a negative number are told
      from the defined results.

    Eigen, rclcpp and the apriltag library are outside the repository; the
    few operations of theirs that the code calls are written out in the
    sections named after them, following their documented behaviour.  Sums
    of three terms are associated as Eigen's unrolled reductions do; no
    result below depends on that choice.

    Calls are taken one at a time.  The record of the node holds its
    configuration; the mutex, which orders a reconfiguration against a
    detection running in another thread, is kept apart from it and comes
    in with [onParameter_locking] and [onCamera_locking], which say
    whether a call leaves it held.  Likewise the constructor is written
    twice: [AprilTagNode_new] on the values its declarations have yielded,
    [AprilTagNode_with_overrides] with the declarations themselves, which
    throw on an override of another type than the default. *)

From Stdlib Require Import ZArith Floats Reals Lra Lia Psatz.
From Stdlib Require Import DecimalString.
From stdpp Require Import gmap strings list fin_maps.

Set Default Proof Using "Type".

(** ** Scalars *)

Class Scalar (A : Type) : Type := {
  szero : A;                 (* 0.0 *)
  sone : A;                  (* 1.0 *)
  stwo : A;                  (* 2.0 *)
  shalf : A;                 (* 0.5 *)
  sadd : A -> A -> A;
  ssub : A -> A -> A;
  smul : A -> A -> A;
  sdiv : A -> A -> A;
  sneg : A -> A;
  ssqrt : A -> A;
  sgtb : A -> A -> bool;     (* x > y *)
  to_single : A -> A         (* the conversion double -> float -> double *)
}.

Declare Scope scalar_scope.
Delimit Scope scalar_scope with S.
Infix "+" := sadd : scalar_scope.
Infix "-" := ssub : scalar_scope.
Infix "*" := smul : scalar_scope.
Infix "/" := sdiv : scalar_scope.
Notation "- x" := (sneg x) : scalar_scope.
Infix ">?" := sgtb (at level 70) : scalar_scope.

(** binary64 to binary32 and back, round to nearest even, through the
    specification of IEEE numbers of the Standard Library. *)
Definition float_to_single (x : float) : float :=
  match Prim2SF x with
  | S754_finite s m e =>
      SF2Prim (binary_normalize 24 128 (cond_Zopp s (Zpos m)) e s)
  | _ => x
  end.

#[export] Instance float_Scalar : Scalar float := {|
  szero := 0%float; sone := 1%float; stwo := 2%float; shalf := 0.5%float;
  sadd := PrimFloat.add; ssub := PrimFloat.sub;
  smul := PrimFloat.mul; sdiv := PrimFloat.div;
  sneg := PrimFloat.opp; ssqrt := PrimFloat.sqrt;
  sgtb := fun x y => PrimFloat.ltb y x;
  to_single := float_to_single
|}.

#[export] Instance R_Scalar : Scalar R := {|
  szero := 0%R; sone := 1%R; stwo := 2%R; shalf := (1 / 2)%R;
  sadd := Rplus; ssub := Rminus; smul := Rmult; sdiv := Rdiv;
  sneg := Ropp; ssqrt := R_sqrt.sqrt;
  sgtb := fun x y => if Rlt_dec y x then true else false;
  to_single := fun x => x
|}.

(** ** Eigen: fixed-size vectors and matrices *)

Record Vector3 (A : Type) : Type := vec3 { vx : A; vy : A; vz : A }.
Arguments vec3 {A} _ _ _.
Arguments vx {A} _.
Arguments vy {A} _.
Arguments vz {A} _.

(** [Mat3]: a 3x3 matrix, [mij] is row [i], column [j]. *)
Record Mat3 (A : Type) : Type := mat3 {
  m00 : A; m01 : A; m02 : A;
  m10 : A; m11 : A; m12 : A;
  m20 : A; m21 : A; m22 : A
}.
Arguments mat3 {A} _ _ _ _ _ _ _ _ _.
Arguments m00 {A} _.
Arguments m01 {A} _.
Arguments m02 {A} _.
Arguments m10 {A} _.
Arguments m11 {A} _.
Arguments m12 {A} _.
Arguments m20 {A} _.
Arguments m21 {A} _.
Arguments m22 {A} _.

Record Quaternion (A : Type) : Type := quat { qw : A; qx : A; qy : A; qz : A }.
Arguments quat {A} _ _ _ _.
Arguments qw {A} _.
Arguments qx {A} _.
Arguments qy {A} _.
Arguments qz {A} _.

(** [geometry_msgs::msg::Transform] *)
Record Transform (A : Type) : Type := mkTransform {
  translation : Vector3 A;
  rotation : Quaternion A
}.
Arguments mkTransform {A} _ _.
Arguments translation {A} _.
Arguments rotation {A} _.

Section Eigen.
Context {A : Type} `{Scalar A}.
Local Open Scope scalar_scope.

(** Column [j] of a matrix; Eigen asserts [j < 3]. *)
Definition col (M : Mat3 A) (j : nat) : Vector3 A :=
  match j with
  | O => vec3 (m00 M) (m10 M) (m20 M)
  | S O => vec3 (m01 M) (m11 M) (m21 M)
  | _ => vec3 (m02 M) (m12 M) (m22 M)
  end.

Definition of_cols (c0 c1 c2 : Vector3 A) : Mat3 A :=
  mat3 (vx c0) (vx c1) (vx c2)
       (vy c0) (vy c1) (vy c2)
       (vz c0) (vz c1) (vz c2).

(** The sum of three terms as Eigen's unrolled reduction associates it. *)
Definition sum3 (a b c : A) : A := a + (b + c).

Definition dot (u v : Vector3 A) : A :=
  sum3 (vx u * vx v) (vy u * vy v) (vz u * vz v).

Definition squaredNorm (v : Vector3 A) : A := dot v v.

Definition norm (v : Vector3 A) : A := ssqrt (squaredNorm v).

(** vector / scalar and vector * scalar, coefficient by coefficient *)
Definition vdiv (v : Vector3 A) (s : A) : Vector3 A :=
  vec3 (vx v / s) (vy v / s) (vz v / s).

Definition vscale (v : Vector3 A) (s : A) : Vector3 A :=
  vec3 (vx v * s) (vy v * s) (vz v * s).

(** [normalized()]: since Eigen 3.3 a vector whose squared norm is not
    positive is returned as it is. *)
Definition normalized (v : Vector3 A) : Vector3 A :=
  let z := squaredNorm v in
  if z >? szero then vdiv v (ssqrt z) else v.

Definition cross (u v : Vector3 A) : Vector3 A :=
  vec3 (vy u * vz v - vz u * vy v)
       (vz u * vx v - vx u * vz v)
       (vx u * vy v - vy u * vx v).

(** The product of two 3x3 matrices, coefficient by coefficient. *)
Definition row (M : Mat3 A) (i : nat) : Vector3 A :=
  match i with
  | O => vec3 (m00 M) (m01 M) (m02 M)
  | S O => vec3 (m10 M) (m11 M) (m12 M)
  | _ => vec3 (m20 M) (m21 M) (m22 M)
  end.

Definition mat_mul (L N : Mat3 A) : Mat3 A :=
  mat3 (dot (row L 0) (col N 0)) (dot (row L 0) (col N 1)) (dot (row L 0) (col N 2))
       (dot (row L 1) (col N 0)) (dot (row L 1) (col N 1)) (dot (row L 1) (col N 2))
       (dot (row L 2) (col N 0)) (dot (row L 2) (col N 1)) (dot (row L 2) (col N 2)).

Definition trace (M : Mat3 A) : A := sum3 (m00 M) (m11 M) (m22 M).

(** [inverse()] of a 3x3 matrix: the cofactors of column 0 give the
    determinant, the adjugate is scaled by its inverse.  Nothing is
    checked: a singular matrix yields infinities or NaN. *)
Definition cofactor00 (M : Mat3 A) : A := m11 M * m22 M - m12 M * m21 M.
Definition cofactor10 (M : Mat3 A) : A := m21 M * m02 M - m22 M * m01 M.
Definition cofactor20 (M : Mat3 A) : A := m01 M * m12 M - m02 M * m11 M.
Definition cofactor01 (M : Mat3 A) : A := m12 M * m20 M - m10 M * m22 M.
Definition cofactor11 (M : Mat3 A) : A := m22 M * m00 M - m20 M * m02 M.
Definition cofactor21 (M : Mat3 A) : A := m02 M * m10 M - m00 M * m12 M.
Definition cofactor02 (M : Mat3 A) : A := m10 M * m21 M - m11 M * m20 M.
Definition cofactor12 (M : Mat3 A) : A := m20 M * m01 M - m21 M * m00 M.
Definition cofactor22 (M : Mat3 A) : A := m00 M * m11 M - m01 M * m10 M.

Definition determinant (M : Mat3 A) : A :=
  sum3 (cofactor00 M * m00 M) (cofactor10 M * m10 M) (cofactor20 M * m20 M).

Definition inverse (M : Mat3 A) : Mat3 A :=
  let invdet := sone / determinant M in
  mat3 (cofactor00 M * invdet) (cofactor10 M * invdet) (cofactor20 M * invdet)
       (cofactor01 M * invdet) (cofactor11 M * invdet) (cofactor21 M * invdet)
       (cofactor02 M * invdet) (cofactor12 M * invdet) (cofactor22 M * invdet).

(** [Eigen::Quaterniond q(R)]: Shoemake's conversion, as Eigen writes it;
    the result is not normalised. *)
Definition Quaternion_of_matrix (M : Mat3 A) : Quaternion A :=
  let t := trace M in
  if t >? szero then
    let t1 := ssqrt (t + sone) in
    let t2 := shalf / t1 in
    quat (shalf * t1)
         ((m21 M - m12 M) * t2)
         ((m02 M - m20 M) * t2)
         ((m10 M - m01 M) * t2)
  else
    let i := if m11 M >? m00 M then 1%nat else 0%nat in
    let i := if m22 M >? (match i with O => m00 M | _ => m11 M end)
             then 2%nat else i in
    match i with
    | O =>      (* i = 0, j = 1, k = 2 *)
        let t1 := ssqrt (m00 M - m11 M - m22 M + sone) in
        let t2 := shalf / t1 in
        quat ((m21 M - m12 M) * t2) (shalf * t1)
             ((m10 M + m01 M) * t2) ((m20 M + m02 M) * t2)
    | S O =>    (* i = 1, j = 2, k = 0 *)
        let t1 := ssqrt (m11 M - m22 M - m00 M + sone) in
        let t2 := shalf / t1 in
        quat ((m02 M - m20 M) * t2) ((m01 M + m10 M) * t2)
             (shalf * t1) ((m21 M + m12 M) * t2)
    | _ =>      (* i = 2, j = 0, k = 1 *)
        let t1 := ssqrt (m22 M - m00 M - m11 M + sone) in
        let t2 := shalf / t1 in
        quat ((m10 M - m01 M) * t2) ((m02 M + m20 M) * t2)
             ((m12 M + m21 M) * t2) (shalf * t1)
    end.
End Eigen.

(** ** The pose estimator [getPose] *)

Section GetPose.
Context {A : Type} `{Scalar A}.
Local Open Scope scalar_scope.

(** [T = Pinv * H], the homography read row-major from [H.data]. *)
Definition getPose_T (H0 Pinv : Mat3 A) : Mat3 A := mat_mul Pinv H0.

(** The local matrix [R] when it is handed to the quaternion. *)
Definition getPose_R (H0 Pinv : Mat3 A) (z_up : bool) : Mat3 A :=
  let T := getPose_T H0 Pinv in
  let R0 := normalized (col T 0) in
  let R1 := normalized (col T 1) in
  let R2 := cross R0 R1 in
  if z_up
  then of_cols R0 (vscale R1 (- sone)) (vscale R2 (- sone))
  else of_cols R0 R1 R2.

(** The local vector [tt]. *)
Definition getPose_tt (H0 Pinv : Mat3 A) (size : A) : Vector3 A :=
  let T := getPose_T H0 Pinv in
  vscale (vdiv (col T 2) ((norm (col T 0) + norm (col T 0)) / stwo))
         (size / stwo).

Definition getPose (H0 Pinv : Mat3 A) (size : A) (z_up : bool) : Transform A :=
  let tt := getPose_tt H0 Pinv size in
  let q := Quaternion_of_matrix (getPose_R H0 Pinv z_up) in
  mkTransform tt q.
End GetPose.

(** ** rclcpp: parameters *)

(** [rclcpp::ParameterValue]: a tagged value; integers are 64-bit,
    floating-point values are [double]. *)
Inductive ParameterValue (A : Type) : Type :=
  | PARAMETER_NOT_SET
  | PARAMETER_BOOL (b : bool)
  | PARAMETER_INTEGER (i : Z)
  | PARAMETER_DOUBLE (d : A)
  | PARAMETER_STRING (s : string)
  | PARAMETER_BYTE_ARRAY (bs : list Z)
  | PARAMETER_BOOL_ARRAY (bs : list bool)
  | PARAMETER_INTEGER_ARRAY (zs : list Z)
  | PARAMETER_DOUBLE_ARRAY (ds : list A)
  | PARAMETER_STRING_ARRAY (ss : list string).
Arguments PARAMETER_NOT_SET {A}.
Arguments PARAMETER_BOOL {A} _.
Arguments PARAMETER_INTEGER {A} _.
Arguments PARAMETER_DOUBLE {A} _.
Arguments PARAMETER_STRING {A} _.
Arguments PARAMETER_BYTE_ARRAY {A} _.
Arguments PARAMETER_BOOL_ARRAY {A} _.
Arguments PARAMETER_INTEGER_ARRAY {A} _.
Arguments PARAMETER_DOUBLE_ARRAY {A} _.
Arguments PARAMETER_STRING_ARRAY {A} _.

(** [rclcpp::Parameter] *)
Record rclcpp_Parameter (A : Type) : Type := mkParameter {
  get_name : string;
  get_parameter_value : ParameterValue A
}.
Arguments mkParameter {A} _ _.
Arguments get_name {A} _.
Arguments get_parameter_value {A} _.

(** Exceptions that leave the functions of the node. *)
Inductive exception : Type :=
  | InvalidParameterTypeException (name : string)
  | runtime_error (what : string)
  | cv_bridge_Exception.

(** The conversion of a 64-bit integer to [int]: reduction modulo 2^32
    into the signed range. *)
Definition to_int (z : Z) : Z := ((z + 2 ^ 31) mod 2 ^ 32 - 2 ^ 31)%Z.

(** [std::to_string] of an integer *)
Definition to_string (z : Z) : string := NilZero.string_of_int (Z.to_int z).

Section GetValue.
Context {A : Type} `{Scalar A}.

(** [parameter.get_value<T>()] returns the stored value converted to [T]
    when the stored type is the parameter type of [T], and throws
    [InvalidParameterTypeException] otherwise ([None] here). *)
Definition get_value_bool (v : ParameterValue A) : option bool :=
  match v with PARAMETER_BOOL b => Some b | _ => None end.

Definition get_value_int (v : ParameterValue A) : option Z :=
  match v with PARAMETER_INTEGER i => Some (to_int i) | _ => None end.

Definition get_value_double (v : ParameterValue A) : option A :=
  match v with PARAMETER_DOUBLE d => Some d | _ => None end.

Definition get_value_float (v : ParameterValue A) : option A :=
  match v with PARAMETER_DOUBLE d => Some (to_single d) | _ => None end.

(** [assign]: the variable, given by its setter [var], takes the value of
    the parameter read at the type of the variable. *)
Definition assign {S T : Type} (get_value : ParameterValue A -> option T)
    (parameter : rclcpp_Parameter A) (var : T -> S -> S) (s : S)
  : exception + S :=
  match get_value (get_parameter_value parameter) with
  | Some v => inr (var v s)
  | None => inl (InvalidParameterTypeException (get_name parameter))
  end.

(** [assign_check]: when the name matches, assign and return true; the
    state after the assignment is returned in place of true, [None] stands
    for false. *)
Definition assign_check {S T : Type} (get_value : ParameterValue A -> option T)
    (parameter : rclcpp_Parameter A) (name : string) (var : T -> S -> S) (s : S)
  : exception + option S :=
  if String.eqb (get_name parameter) name then
    match assign get_value parameter var s with
    | inr s' => inr (Some s')
    | inl e => inl e
    end
  else inr None.

(** The macro [IF(N, V)]: [continue] with the next parameter when the
    name matched, go on with the rest of the loop body otherwise. *)
Definition IF {S T : Type} (get_value : ParameterValue A -> option T)
    (parameter : rclcpp_Parameter A) (N : string) (V : T -> S -> S) (s : S)
    (rest : exception + S) : exception + S :=
  match assign_check get_value parameter N V s with
  | inl e => inl e
  | inr (Some s') => inr s'
  | inr None => rest
  end.
End GetValue.

(** ** apriltag: the detector and its detections *)

(** Modelled from the spec: [apriltag.h] is not part of the sources; the
    tuning fields of [apriltag_detector_t] that the node touches are the
    spec's DetectorConfig (thread count, decimation factor, blur sigma,
    edge-refinement flag, sharpening amount, debug flag).  In the header
    of the library the count is an [int], the two factors are [float], the
    sharpening amount is a [double] and the flags are [bool]; the
    assignment templates of the node convert to these types. *)
Record apriltag_detector_t (A : Type) : Type := mkDetector {
  nthreads : Z;
  quad_decimate : A;
  quad_sigma : A;
  refine_edges : bool;
  decode_sharpening : A;
  debug : bool
}.
Arguments mkDetector {A} _ _ _ _ _ _.
Arguments nthreads {A} _.
Arguments quad_decimate {A} _.
Arguments quad_sigma {A} _.
Arguments refine_edges {A} _.
Arguments decode_sharpening {A} _.
Arguments debug {A} _.

(** Modelled from the spec: [apriltag_detection_t] of [apriltag.h], the
    spec's RawDetection: family name and integer ID, hamming distance,
    decision margin, homography, centre [c] and the four corners [p]. *)
Record apriltag_detection_t (A : Type) : Type := mkDetection {
  det_family_name : string;
  det_id : Z;
  det_hamming : Z;
  det_decision_margin : A;
  det_H : Mat3 A;
  det_c : A * A;
  det_p : list (A * A)
}.
Arguments mkDetection {A} _ _ _ _ _ _ _.
Arguments det_family_name {A} _.
Arguments det_id {A} _.
Arguments det_hamming {A} _.
Arguments det_decision_margin {A} _.
Arguments det_H {A} _.
Arguments det_c {A} _.
Arguments det_p {A} _.

(** What the node is linked against: the message header and image types,
    the table [tag_create] of [tag_functions.hpp], the fresh detector of
    [apriltag_detector_create], the image conversion of cv_bridge ([None]
    when it throws) and the detector itself. *)
Class External (A : Type) : Type := {
  Header : Type;
  Image : Type;
  image_u8_t : Type;
  apriltag_family_t : Type;
  image_header : Image -> Header;
  tag_create : string -> option apriltag_family_t;
  apriltag_detector_create : apriltag_detector_t A;
  toCvShare_mono8 : Image -> option image_u8_t;
  apriltag_detector_detect :
    apriltag_detector_t A -> image_u8_t -> list (apriltag_detection_t A)
}.

(** ** Messages *)

(** [apriltag_msgs::msg::AprilTagDetection] *)
Record AprilTagDetection (A : Type) : Type := mkAprilTagDetection {
  msg_family : string;
  msg_id : Z;
  msg_hamming : Z;
  msg_decision_margin : A;
  msg_centre : A * A;
  msg_corners : list (A * A);
  msg_homography : list A
}.
Arguments mkAprilTagDetection {A} _ _ _ _ _ _ _.
Arguments msg_family {A} _.
Arguments msg_id {A} _.
Arguments msg_hamming {A} _.
Arguments msg_decision_margin {A} _.
Arguments msg_centre {A} _.
Arguments msg_corners {A} _.
Arguments msg_homography {A} _.

Record AprilTagDetectionArray (A H : Type) : Type := mkDetectionArray {
  array_header : H;
  detections : list (AprilTagDetection A)
}.
Arguments mkDetectionArray {A H} _ _.
Arguments array_header {A H} _.
Arguments detections {A H} _.

(** [geometry_msgs::msg::TransformStamped] *)
Record TransformStamped (A H : Type) : Type := mkTransformStamped {
  tf_header : H;
  child_frame_id : string;
  transform : Transform A
}.
Arguments mkTransformStamped {A H} _ _ _.
Arguments tf_header {A H} _.
Arguments child_frame_id {A H} _.
Arguments transform {A H} _.

(** [sensor_msgs::msg::CameraInfo]: the 12 entries of the row-major 3x4
    projection matrix [p]. *)
Record CameraInfo (A : Type) : Type := mkCameraInfo { ci_p : list A }.
Arguments mkCameraInfo {A} _.
Arguments ci_p {A} _.

(** [rcl_interfaces::msg::SetParametersResult] *)
Record SetParametersResult : Type := mkResult {
  successful : bool;
  reason : string
}.

(** ** The node *)

(** The members of [AprilTagNode] that carry configuration.  [tf] is the
    marker family, unset until the constructor has looked it up.  The
    mutex is not a field of this record: [onParameter_locking] and
    [onCamera_locking] carry it next to the node. *)
Record AprilTagNode (A F : Type) : Type := mkNode {
  tf : option F;
  td : apriltag_detector_t A;
  tag_edge_size : A;
  max_hamming : Z;
  profile : bool;
  tag_frames : gmap Z string;
  tag_sizes : gmap Z A;
  z_up : bool;
  enabled : bool
}.
Arguments mkNode {A F} _ _ _ _ _ _ _ _ _.
Arguments tf {A F} _.
Arguments td {A F} _.
Arguments tag_edge_size {A F} _.
Arguments max_hamming {A F} _.
Arguments profile {A F} _.
Arguments tag_frames {A F} _.
Arguments tag_sizes {A F} _.
Arguments z_up {A F} _.
Arguments enabled {A F} _.

Section Assignments.
Context {A F : Type}.
Implicit Types (n : AprilTagNode A F) (d : apriltag_detector_t A).

(** Assignments to single fields. *)
Definition set_td (f : apriltag_detector_t A -> apriltag_detector_t A) n :=
  mkNode (tf n) (f (td n)) (tag_edge_size n) (max_hamming n) (profile n)
         (tag_frames n) (tag_sizes n) (z_up n) (enabled n).
Definition set_nthreads (v : Z) d :=
  mkDetector v (quad_decimate d) (quad_sigma d) (refine_edges d)
             (decode_sharpening d) (debug d).
Definition set_quad_decimate (v : A) d :=
  mkDetector (nthreads d) v (quad_sigma d) (refine_edges d)
             (decode_sharpening d) (debug d).
Definition set_quad_sigma (v : A) d :=
  mkDetector (nthreads d) (quad_decimate d) v (refine_edges d)
             (decode_sharpening d) (debug d).
Definition set_refine_edges (v : bool) d :=
  mkDetector (nthreads d) (quad_decimate d) (quad_sigma d) v
             (decode_sharpening d) (debug d).
Definition set_decode_sharpening (v : A) d :=
  mkDetector (nthreads d) (quad_decimate d) (quad_sigma d) (refine_edges d)
             v (debug d).
Definition set_debug (v : bool) d :=
  mkDetector (nthreads d) (quad_decimate d) (quad_sigma d) (refine_edges d)
             (decode_sharpening d) v.
Definition set_tf (v : option F) n :=
  mkNode v (td n) (tag_edge_size n) (max_hamming n) (profile n)
         (tag_frames n) (tag_sizes n) (z_up n) (enabled n).
Definition set_tag_edge_size (v : A) n :=
  mkNode (tf n) (td n) v (max_hamming n) (profile n)
         (tag_frames n) (tag_sizes n) (z_up n) (enabled n).
Definition set_max_hamming (v : Z) n :=
  mkNode (tf n) (td n) (tag_edge_size n) v (profile n)
         (tag_frames n) (tag_sizes n) (z_up n) (enabled n).
Definition set_profile (v : bool) n :=
  mkNode (tf n) (td n) (tag_edge_size n) (max_hamming n) v
         (tag_frames n) (tag_sizes n) (z_up n) (enabled n).
Definition set_tag_frames (v : gmap Z string) n :=
  mkNode (tf n) (td n) (tag_edge_size n) (max_hamming n) (profile n)
         v (tag_sizes n) (z_up n) (enabled n).
Definition set_tag_sizes (v : gmap Z A) n :=
  mkNode (tf n) (td n) (tag_edge_size n) (max_hamming n) (profile n)
         (tag_frames n) v (z_up n) (enabled n).
Definition set_z_up (v : bool) n :=
  mkNode (tf n) (td n) (tag_edge_size n) (max_hamming n) (profile n)
         (tag_frames n) (tag_sizes n) v (enabled n).
Definition set_enabled (v : bool) n :=
  mkNode (tf n) (td n) (tag_edge_size n) (max_hamming n) (profile n)
         (tag_frames n) (tag_sizes n) (z_up n) v.
End Assignments.

(** ** [AprilTagNode::onParameter] *)

Section OnParameter.
Context {A F : Type} `{Scalar A}.
Implicit Types (node : AprilTagNode A F) (parameter : rclcpp_Parameter A).

(** The body of the loop for one parameter: the ten [IF] lines in their
    order.  [inl e]: the exception [e] leaves the loop. *)
Definition onParameter_body node parameter : exception + AprilTagNode A F :=
  IF get_value_int parameter "detector.threads"
     (fun v => set_td (set_nthreads v)) node $
  IF get_value_float parameter "detector.decimate"
     (fun v => set_td (set_quad_decimate v)) node $
  IF get_value_float parameter "detector.blur"
     (fun v => set_td (set_quad_sigma v)) node $
  IF get_value_bool parameter "detector.refine"
     (fun v => set_td (set_refine_edges v)) node $
  IF get_value_double parameter "detector.sharpening"
     (fun v => set_td (set_decode_sharpening v)) node $
  IF get_value_bool parameter "detector.debug"
     (fun v => set_td (set_debug v)) node $
  IF get_value_int parameter "max_hamming" set_max_hamming node $
  IF get_value_bool parameter "profile" set_profile node $
  IF get_value_bool parameter "z_up" set_z_up node $
  IF get_value_bool parameter "enabled" set_enabled node $
  inr node.

(** The loop over the batch.  An exception ends it; what was assigned
    before stays assigned. *)
Fixpoint onParameter_loop node (parameters : list (rclcpp_Parameter A))
  : AprilTagNode A F * option exception :=
  match parameters with
  | [] => (node, None)
  | parameter :: rest =>
      match onParameter_body node parameter with
      | inl e => (node, Some e)
      | inr node' => onParameter_loop node' rest
      end
  end.

Definition onParameter node (parameters : list (rclcpp_Parameter A))
  : AprilTagNode A F * (exception + SetParametersResult) :=
  match onParameter_loop node parameters with
  | (node', Some e) => (node', inl e)
  | (node', None) => (node', inr (mkResult true ""))
  end.
End OnParameter.

(** ** The constructor [AprilTagNode::AprilTagNode] *)

(** The values that the [declare_parameter] calls of the constructor
    yield (the override given at startup, or the default), each of the
    type it is declared with.  A declaration whose override has another
    type throws and yields no value: see [startup_parameters]. *)
Record StartupParameters (A : Type) : Type := mkStartup {
  p_image_transport : string;
  p_family : string;
  p_size : A;
  p_tag_ids : list Z;
  p_tag_frames : list string;
  p_tag_sizes : list A;
  p_detector_threads : Z;
  p_detector_decimate : A;
  p_detector_blur : A;
  p_detector_refine : bool;
  p_detector_sharpening : A;
  p_detector_debug : bool;
  p_max_hamming : Z;
  p_profile : bool;
  p_z_up : bool;
  p_enabled : bool
}.
Arguments mkStartup {A} _ _ _ _ _ _ _ _ _ _ _ _ _ _ _ _.
Arguments p_image_transport {A} _.
Arguments p_family {A} _.
Arguments p_size {A} _.
Arguments p_tag_ids {A} _.
Arguments p_tag_frames {A} _.
Arguments p_tag_sizes {A} _.
Arguments p_detector_threads {A} _.
Arguments p_detector_decimate {A} _.
Arguments p_detector_blur {A} _.
Arguments p_detector_refine {A} _.
Arguments p_detector_sharpening {A} _.
Arguments p_detector_debug {A} _.
Arguments p_max_hamming {A} _.
Arguments p_profile {A} _.
Arguments p_z_up {A} _.
Arguments p_enabled {A} _.

Definition throws {E T U : Type} (x : E + T) (k : T -> E + U) : E + U :=
  match x with inl e => inl e | inr v => k v end.
Notation "'try' x <- e ; k" := (throws e (fun x => k))
  (at level 10, x name, e at level 100, k at level 200).

(** [empty()] of a vector *)
Definition empty {T : Type} (l : list T) : bool :=
  match l with [] => true | _ :: _ => false end.

Section Constructor.
Context {A : Type} `{Scalar A} `{External A}.
Abbreviation Node := (AprilTagNode A apriltag_family_t).

(** Declaring a parameter runs the callback registered with
    [add_on_set_parameters_callback], here [onParameter], on it. *)
Definition declare_parameter (node : Node) (name : string)
    (v : ParameterValue A) : exception + Node :=
  match onParameter node [mkParameter name v] with
  | (_, inl e) => inl e
  | (node', inr _) => inr node'
  end.

(** [for (i = 0; i < ids.size(); i++) m[ids[i]] = vs[i]], entered with
    lists of the same length; the key is converted to [int]. *)
Fixpoint fill {V : Type} (m : gmap Z V) (ids : list Z) (vs : list V)
  : gmap Z V :=
  match ids, vs with
  | i :: ids', v :: vs' => fill (<[to_int i := v]> m) ids' vs'
  | _, _ => m
  end.

Definition size_of {T : Type} (l : list T) : Z := Z.of_nat (length l).

Definition mismatch (what : string) (n_ids n : Z) : exception :=
  runtime_error ("Number of tag ids (" +:+ to_string n_ids +:+ ") and "
                 +:+ what +:+ " (" +:+ to_string n +:+ ") mismatch!").

Definition AprilTagNode_new (p : StartupParameters A) : exception + Node :=
  (* member initialisers; the members that C++ leaves uninitialised here
     hold a placeholder, and each is assigned before the constructor ends *)
  let node : Node :=
    mkNode None apriltag_detector_create szero 0%Z false ∅ ∅ false false in
  try node <- declare_parameter node "image_transport"
                (PARAMETER_STRING (p_image_transport p));
  (* read-only parameters *)
  try node <- declare_parameter node "family" (PARAMETER_STRING (p_family p));
  let tag_family := p_family p in
  try node <- declare_parameter node "size" (PARAMETER_DOUBLE (p_size p));
  let node := set_tag_edge_size (p_size p) node in
  try node <- declare_parameter node "tag.ids"
                (PARAMETER_INTEGER_ARRAY (p_tag_ids p));
  let ids := p_tag_ids p in
  try node <- declare_parameter node "tag.frames"
                (PARAMETER_STRING_ARRAY (p_tag_frames p));
  let frames := p_tag_frames p in
  try node <- declare_parameter node "tag.sizes"
                (PARAMETER_DOUBLE_ARRAY (p_tag_sizes p));
  let sizes := p_tag_sizes p in
  (* detector parameters *)
  try node <- declare_parameter node "detector.threads"
                (PARAMETER_INTEGER (p_detector_threads p));
  try node <- declare_parameter node "detector.decimate"
                (PARAMETER_DOUBLE (p_detector_decimate p));
  try node <- declare_parameter node "detector.blur"
                (PARAMETER_DOUBLE (p_detector_blur p));
  try node <- declare_parameter node "detector.refine"
                (PARAMETER_BOOL (p_detector_refine p));
  try node <- declare_parameter node "detector.sharpening"
                (PARAMETER_DOUBLE (p_detector_sharpening p));
  try node <- declare_parameter node "detector.debug"
                (PARAMETER_BOOL (p_detector_debug p));
  try node <- declare_parameter node "max_hamming"
                (PARAMETER_INTEGER (p_max_hamming p));
  try node <- declare_parameter node "profile" (PARAMETER_BOOL (p_profile p));
  try node <- declare_parameter node "z_up" (PARAMETER_BOOL (p_z_up p));
  try node <- declare_parameter node "enabled" (PARAMETER_BOOL (p_enabled p));
  try node <-
    (if negb (empty frames) then
       if negb (size_of ids =? size_of frames)%Z
       then inl (mismatch "frames" (size_of ids) (size_of frames))
       else inr (set_tag_frames (fill (tag_frames node) ids frames) node)
     else inr node);
  try node <-
    (if negb (empty sizes) then
       if negb (size_of ids =? size_of sizes)%Z
       then inl (mismatch "sizes" (size_of ids) (size_of sizes))
       else inr (set_tag_sizes (fill (tag_sizes node) ids sizes) node)
     else inr node);
  match tag_create tag_family with
  | Some family => inr (set_tf (Some family) node)
  | None => inl (runtime_error ("Unsupported tag family: " +:+ tag_family))
  end.
End Constructor.

(** ** The frame callback [AprilTagNode::onCamera] *)

Section OnCamera.
Context {A : Type} `{Scalar A} `{External A}.
Abbreviation Node := (AprilTagNode A apriltag_family_t).

(** What a call does to the outside, in the order it does it. *)
Inductive Event : Type :=
  | detector_detect (d : apriltag_detector_t A) (im : image_u8_t)
  | timeprofile_display
  | publish (msg : AprilTagDetectionArray A Header)
  | sendTransform (tfs : list (TransformStamped A Header)).

(** The left 3x3 block of the row-major 3x4 matrix [p]. *)
Definition leftCols3 (p : list A) : Mat3 A :=
  let e i := nth i p szero in
  mat3 (e 0%nat) (e 1%nat) (e 2%nat)
       (e 4%nat) (e 5%nat) (e 6%nat)
       (e 8%nat) (e 9%nat) (e 10%nat).

(** [count] and [empty] of an [unordered_map] *)
Definition count {V : Type} (m : gmap Z V) (k : Z) : bool :=
  match m !! k with Some _ => true | None => false end.

Definition map_empty {V : Type} (m : gmap Z V) : bool :=
  match map_to_list m with [] => true | _ :: _ => false end.

(** The nine entries of a homography in row-major order. *)
Definition data (M : Mat3 A) : list A :=
  [m00 M; m01 M; m02 M; m10 M; m11 M; m12 M; m20 M; m21 M; m22 M].

Definition make_msg_detection (det : apriltag_detection_t A)
  : AprilTagDetection A :=
  mkAprilTagDetection (det_family_name det) (det_id det) (det_hamming det)
    (det_decision_margin det) (det_c det) (det_p det) (data (det_H det)).

Definition make_tf (node : Node) (header : Header) (Pinv : Mat3 A)
    (det : apriltag_detection_t A) : TransformStamped A Header :=
  mkTransformStamped header
    (match tag_frames node !! det_id det with
     | Some name => name
     | None => det_family_name det +:+ ":" +:+ to_string (det_id det)
     end)
    (getPose (det_H det) Pinv
       (match tag_sizes node !! det_id det with
        | Some size => size
        | None => tag_edge_size node
        end)
       (z_up node)).

(** One turn of the loop over the detections; the accumulator holds
    [msg_detections.detections] and [tfs]. *)
Definition onCamera_body (node : Node) (header : Header) (Pinv : Mat3 A)
    (acc : list (AprilTagDetection A) * list (TransformStamped A Header))
    (det : apriltag_detection_t A)
  : list (AprilTagDetection A) * list (TransformStamped A Header) :=
  (* ignore untracked tags *)
  if negb (map_empty (tag_frames node))
     && negb (count (tag_frames node) (det_id det)) then acc
  (* reject detections with more corrected bits than allowed *)
  else if (det_hamming det >? max_hamming node)%Z then acc
  else (acc.1 ++ [make_msg_detection det],
        acc.2 ++ [make_tf node header Pinv det]).

(** The call: the events it causes and the exception it ends with, if
    any. *)
Definition onCamera (node : Node) (msg_img : Image) (msg_ci : CameraInfo A)
  : list Event * option exception :=
  if negb (enabled node) then ([], None)
  else
    let Pinv := inverse (leftCols3 (ci_p msg_ci)) in
    match toCvShare_mono8 msg_img with
    | None => ([], Some cv_bridge_Exception)
    | Some im =>
        let dets := apriltag_detector_detect (td node) im in
        let out :=
          fold_left (onCamera_body node (image_header msg_img) Pinv)
                    dets ([], []) in
        ([detector_detect (td node) im]
           ++ (if profile node then [timeprofile_display] else [])
           ++ [publish (mkDetectionArray (image_header msg_img) out.1);
               sendTransform out.2],
         None)
    end.

(** The detection records and the transforms that a run has put out. *)
Definition published (e : Event) : list (AprilTagDetection A) :=
  match e with publish msg => detections msg | _ => [] end.

Definition broadcast (e : Event) : list (TransformStamped A Header) :=
  match e with sendTransform tfs => tfs | _ => [] end.

Definition is_detect (e : Event) : bool :=
  match e with detector_detect _ _ => true | _ => false end.

Definition emitted_detections (evs : list Event) : list (AprilTagDetection A) :=
  concat (map published evs).

Definition emitted_transforms (evs : list Event)
  : list (TransformStamped A Header) :=
  concat (map broadcast evs).

(** A raw detection survives the two filters. *)
Definition survives (node : Node) (det : apriltag_detection_t A) : bool :=
  (map_empty (tag_frames node) || count (tag_frames node) (det_id det))
  && (det_hamming det <=? max_hamming node)%Z.
End OnCamera.

(** * The vocabulary of the properties *)

(** ** Reconfiguration: the recognised keys and what a batch leaves behind *)

(** The ten names that [onParameter] compares with. *)
Inductive Key : Type :=
  | detector_threads | detector_decimate | detector_blur | detector_refine
  | detector_sharpening | detector_debug
  | key_max_hamming | key_profile | key_z_up | key_enabled.

Definition key_name (k : Key) : string :=
  match k with
  | detector_threads => "detector.threads"
  | detector_decimate => "detector.decimate"
  | detector_blur => "detector.blur"
  | detector_refine => "detector.refine"
  | detector_sharpening => "detector.sharpening"
  | detector_debug => "detector.debug"
  | key_max_hamming => "max_hamming"
  | key_profile => "profile"
  | key_z_up => "z_up"
  | key_enabled => "enabled"
  end.

Definition all_keys : list Key :=
  [detector_threads; detector_decimate; detector_blur; detector_refine;
   detector_sharpening; detector_debug;
   key_max_hamming; key_profile; key_z_up; key_enabled].

Definition recognized : list string := map key_name all_keys.

#[export] Instance Key_eq_dec : EqDecision Key.
Proof. solve_decision. Defined.

(** The key that a name is matched to, trying the keys in the order of
    the [IF] lines. *)
Definition classify (name : string) : option Key :=
  find (fun k => String.eqb name (key_name k)) all_keys.

(** The content of a configuration field. *)
Inductive FieldValue (A : Type) : Type :=
  | FBool (b : bool)
  | FInt (i : Z)
  | FReal (x : A).
Arguments FBool {A} _.
Arguments FInt {A} _.
Arguments FReal {A} _.

Section Fields.
Context {A F : Type} `{Scalar A}.
Implicit Types (node : AprilTagNode A F) (p : rclcpp_Parameter A) (k : Key).

(** The field that a key stands for. *)
Definition read k node : FieldValue A :=
  match k with
  | detector_threads => FInt (nthreads (td node))
  | detector_decimate => FReal (quad_decimate (td node))
  | detector_blur => FReal (quad_sigma (td node))
  | detector_refine => FBool (refine_edges (td node))
  | detector_sharpening => FReal (decode_sharpening (td node))
  | detector_debug => FBool (debug (td node))
  | key_max_hamming => FInt (max_hamming node)
  | key_profile => FBool (profile node)
  | key_z_up => FBool (z_up node)
  | key_enabled => FBool (enabled node)
  end.

(** The value carried by an update as the field of key [k] takes it:
    converted to the type of the field, and nothing when
    [get_value] throws. *)
Definition store k (v : ParameterValue A) : option (FieldValue A) :=
  match k with
  | detector_threads | key_max_hamming => FInt <$> get_value_int v
  | detector_decimate | detector_blur => FReal <$> get_value_float v
  | detector_sharpening => FReal <$> get_value_double v
  | detector_refine | detector_debug
  | key_profile | key_z_up | key_enabled => FBool <$> get_value_bool v
  end.

Definition write k (w : FieldValue A) node : AprilTagNode A F :=
  match k, w with
  | detector_threads, FInt i => set_td (set_nthreads i) node
  | detector_decimate, FReal x => set_td (set_quad_decimate x) node
  | detector_blur, FReal x => set_td (set_quad_sigma x) node
  | detector_refine, FBool b => set_td (set_refine_edges b) node
  | detector_sharpening, FReal x => set_td (set_decode_sharpening x) node
  | detector_debug, FBool b => set_td (set_debug b) node
  | key_max_hamming, FInt i => set_max_hamming i node
  | key_profile, FBool b => set_profile b node
  | key_z_up, FBool b => set_z_up b node
  | key_enabled, FBool b => set_enabled b node
  | _, _ => node
  end.

(** An update that [onParameter] takes without an exception: its name
    is none of the keys, or its value has the parameter type of the
    field. *)
Definition well_typed p : bool :=
  match classify (get_name p) with
  | None => true
  | Some k =>
      match store k (get_parameter_value p) with
      | Some _ => true
      | None => false
      end
  end.

(** The last update of a batch that carries the given name. *)
Fixpoint last_named (name : string) (ps : list (rclcpp_Parameter A))
  : option (rclcpp_Parameter A) :=
  match ps with
  | [] => None
  | p :: rest =>
      match last_named name rest with
      | Some q => Some q
      | None => if String.eqb (get_name p) name then Some p else None
      end
  end.

(** The members that no update reaches. *)
Definition fixed_part node : option F * A * gmap Z string * gmap Z A :=
  (tf node, tag_edge_size node, tag_frames node, tag_sizes node).
End Fields.

(** ** The constructor, after the declarations *)

Section Declared.
Context {A : Type} `{Scalar A} `{External A}.

(** The node when all parameters are declared: every declaration has run
    [onParameter] on the declared value. *)
Definition declared_node (p : StartupParameters A)
  : AprilTagNode A apriltag_family_t :=
  mkNode None
    (mkDetector (to_int (p_detector_threads p))
       (to_single (p_detector_decimate p)) (to_single (p_detector_blur p))
       (p_detector_refine p) (p_detector_sharpening p) (p_detector_debug p))
    (p_size p) (to_int (p_max_hamming p)) (p_profile p) ∅ ∅
    (p_z_up p) (p_enabled p).

(** The node that the constructor yields when it does not throw: the two
    maps filled from the lists (a map stays empty when its list is), the
    family looked up. *)
Definition constructed_node (p : StartupParameters A) (family : apriltag_family_t)
  : AprilTagNode A apriltag_family_t :=
  set_tf (Some family)
    (set_tag_sizes (fill ∅ (p_tag_ids p) (p_tag_sizes p))
       (set_tag_frames (fill ∅ (p_tag_ids p) (p_tag_frames p))
          (declared_node p))).
End Declared.

(** ** Pose estimation: what the specification computes and asks for *)

Section PoseSpec.
Context {A : Type} `{Scalar A}.
Local Open Scope scalar_scope.

(** The translation in the specification's words: the third column of
    [T] divided by the average of the norms of its first two columns, then
    multiplied by half the edge size. *)
Definition translation_spec (H0 Pinv : Mat3 A) (size : A) : Vector3 A :=
  let T := getPose_T H0 Pinv in
  vscale (vdiv (col T 2) ((norm (col T 0) + norm (col T 1)) / stwo))
         (size / stwo).

(** A matrix with its columns 1 and 2 negated. *)
Definition negate_cols_1_2 (M : Mat3 A) : Mat3 A :=
  of_cols (col M 0) (vscale (col M 1) (- sone)) (vscale (col M 2) (- sone)).
End PoseSpec.

Local Open Scope R_scope.

(** The rotation by the angle [theta] about the x-axis. *)
Definition rot_x (theta : R) : Mat3 R :=
  mat3 1 0 0
       0 (cos theta) (- sin theta)
       0 (sin theta) (cos theta).

(** A proper orthonormal rotation up to the tolerance [eps]: columns of
    unit length, orthogonal to each other, determinant +1. *)
Definition rotation_within (eps : R) (M : Mat3 R) : Prop :=
  Rabs (norm (col M 0) - 1) <= eps /\
  Rabs (norm (col M 1) - 1) <= eps /\
  Rabs (norm (col M 2) - 1) <= eps /\
  Rabs (dot (col M 0) (col M 1)) <= eps /\
  Rabs (dot (col M 0) (col M 2)) <= eps /\
  Rabs (dot (col M 1) (col M 2)) <= eps /\
  Rabs (determinant M - 1) <= eps.

Local Close Scope R_scope.

(** The same test on binary64 numbers. *)
Definition float_rotation_within (eps : float) (M : Mat3 float) : bool :=
  let near (x y : float) := PrimFloat.leb (PrimFloat.abs (x - y)) eps in
  near (norm (col M 0)) 1%float && near (norm (col M 1)) 1%float
  && near (norm (col M 2)) 1%float
  && near (dot (col M 0) (col M 1)) 0%float
  && near (dot (col M 0) (col M 2)) 0%float
  && near (dot (col M 1) (col M 2)) 0%float
  && near (determinant M) 1%float.

(** A vector with a NaN among its coefficients. *)
Definition has_nan (v : Vector3 float) : bool :=
  PrimFloat.is_nan (vx v) || PrimFloat.is_nan (vy v) || PrimFloat.is_nan (vz v).

(** ** A test bench on binary64 numbers *)

(** Collaborators to run the node with: a header is a time stamp, a
    picture carries its stamp and the detections that the detector will
    report for it, the only family is 36h11, and a fresh detector has the
    defaults of the apriltag library. *)
#[export] Instance bench_External : External float := {|
  Header := Z;
  Image := Z * list (apriltag_detection_t float);
  image_u8_t := list (apriltag_detection_t float);
  apriltag_family_t := string;
  image_header := fst;
  tag_create := fun name =>
    if String.eqb name "36h11" then Some "tag36h11" else None;
  apriltag_detector_create := mkDetector 1%Z 2%float 0%float true 0.25%float false;
  toCvShare_mono8 := fun img => Some (snd img);
  apriltag_detector_detect := fun _ im => im
|}.

Definition bench_startup (ids : list Z) (frames : list string)
    (sizes : list float) (enabled : bool) : StartupParameters float :=
  mkStartup "raw" "36h11" 1%float ids frames sizes
            1%Z 2%float 0%float true 0.25%float false 0%Z false true enabled.

(** A node as the constructor leaves it for the IDs 3 and 7, named and
    sized, and switched on or off. *)
Definition bench_node (enabled : bool) : AprilTagNode float apriltag_family_t :=
  mkNode (Some "tag36h11") (mkDetector 1%Z 2%float 0%float true 0.25%float false)
         1%float 0%Z false
         (<[7%Z := "dock"]> (<[3%Z := "door"]> ∅))
         (<[7%Z := 0.5%float]> (<[3%Z := 2%float]> ∅))
         true enabled.

Definition identity3 : Mat3 float := (mat3 1 0 0 0 1 0 0 0 1)%float.
Definition zero3 : Mat3 float := (mat3 0 0 0 0 0 0 0 0 0)%float.
(** A homography that stretches the second axis. *)
Definition stretch3 : Mat3 float := (mat3 1 0 0 0 2 0 0 0 1)%float.
(** A homography that shears the second axis onto the first. *)
Definition shear3 : Mat3 float := (mat3 1 3 0 0 4 0 0 0 1)%float.

Definition bench_detection (id hamming : Z) : apriltag_detection_t float :=
  mkDetection "tag36h11" id hamming 50%float identity3
              (320%float, 240%float)
              [(300%float, 260%float); (340%float, 260%float);
               (340%float, 220%float); (300%float, 220%float)].

Definition bench_camera_info : CameraInfo float :=
  mkCameraInfo [1; 0; 0; 0;  0; 1; 0; 0;  0; 0; 1; 0]%float.

(** A batch on the bench: a threshold, a name that is no key, the switch. *)
Definition bench_batch : list (rclcpp_Parameter float) :=
  [mkParameter "max_hamming" (PARAMETER_INTEGER 2);
   mkParameter "tag.ids" (PARAMETER_STRING "7");
   mkParameter "enabled" (PARAMETER_BOOL false);
   mkParameter "enabled" (PARAMETER_BOOL true)].

(** A picture on the bench: the detector reports the IDs 7, 5, 3 and 3
    again, the last with one corrected bit. *)
Definition bench_image : Image :=
  (1700000000%Z,
   [bench_detection 7 0; bench_detection 5 0; bench_detection 3 0;
    bench_detection 3 1]).

(** The identity and the shear as real matrices. *)
Definition identity3_R : Mat3 R := (mat3 1 0 0 0 1 0 0 0 1)%R.
Definition shear3_R : Mat3 R := (mat3 1 3 0 0 4 0 0 0 1)%R.

(** ** More vocabulary: events, scaled matrices, quaternion norm *)

Section MoreEvents.
Context {A : Type} `{Scalar A} `{External A}.

Definition is_profile (e : Event) : bool :=
  match e with timeprofile_display => true | _ => false end.

(** The events of a run without the profiling reports. *)
Definition without_profile (evs : list Event) : list Event :=
  List.filter (fun e => negb (is_profile e)) evs.

(** The name that line 267 gives to the frame of a detection record. *)
Definition frame_name (node : AprilTagNode A apriltag_family_t)
    (d : AprilTagDetection A) : string :=
  match tag_frames node !! msg_id d with
  | Some name => name
  | None => msg_family d +:+ ":" +:+ to_string (msg_id d)
  end.
End MoreEvents.

(** An update that carries the switch [enabled]. *)
Definition bench_switch (b : bool) : rclcpp_Parameter float :=
  mkParameter "enabled" (PARAMETER_BOOL b).

(** A matrix with every entry multiplied by [lam]. *)
Definition scale_mat {A : Type} `{Scalar A} (M : Mat3 A) (lam : A) : Mat3 A :=
  of_cols (vscale (col M 0) lam) (vscale (col M 1) lam) (vscale (col M 2) lam).

(** The squared norm of a quaternion. *)
Definition quat_squaredNorm (q : Quaternion R) : R :=
  (qw q * qw q + qx q * qx q + qy q * qy q + qz q * qz q)%R.

(** A projection matrix with the focal length 2 and the principal point
    (3, 1), as the 12 entries of a camera info. *)
Definition camera_p_R : list R := [2; 0; 3; 0;  0; 2; 1; 0;  0; 0; 1; 0]%R.

(** A projection matrix whose left block is singular: the focal length in
    y is 0. *)
Definition singular_p : list float := [1; 0; 0; 0;  0; 0; 0; 0;  0; 0; 1; 0]%float.


(** ** Exact arithmetic with undefined results *)

(** Real numbers with a mark for what is not defined: a quotient by zero
    and the square root of a negative number are [None], [None] spreads
    through every operation, and a comparison with [None] is false, as a
    comparison with NaN is. *)
#[export] Instance checked_Scalar : Scalar (option R) := {|
  szero := Some 0%R; sone := Some 1%R; stwo := Some 2%R; shalf := Some (1 / 2)%R;
  sadd := fun x y =>
    match x, y with Some a, Some b => Some (a + b)%R | _, _ => None end;
  ssub := fun x y =>
    match x, y with Some a, Some b => Some (a - b)%R | _, _ => None end;
  smul := fun x y =>
    match x, y with Some a, Some b => Some (a * b)%R | _, _ => None end;
  sdiv := fun x y =>
    match x, y with
    | Some a, Some b => if Req_dec_T b 0 then None else Some (a / b)%R
    | _, _ => None
    end;
  sneg := fun x => match x with Some a => Some (- a)%R | None => None end;
  ssqrt := fun x =>
    match x with
    | Some a => if Rlt_dec a 0 then None else Some (R_sqrt.sqrt a)
    | None => None
    end;
  sgtb := fun x y =>
    match x, y with
    | Some a, Some b => if Rlt_dec b a then true else false
    | _, _ => false
    end;
  to_single := fun x => x
|}.

(** Real vectors, matrices, quaternions and transforms as defined ones. *)
Definition some_vec (v : Vector3 R) : Vector3 (option R) :=
  vec3 (Some (vx v)) (Some (vy v)) (Some (vz v)).

Definition some_mat (M : Mat3 R) : Mat3 (option R) :=
  mat3 (Some (m00 M)) (Some (m01 M)) (Some (m02 M))
       (Some (m10 M)) (Some (m11 M)) (Some (m12 M))
       (Some (m20 M)) (Some (m21 M)) (Some (m22 M)).

Definition some_quat (q : Quaternion R) : Quaternion (option R) :=
  quat (Some (qw q)) (Some (qx q)) (Some (qy q)) (Some (qz q)).

(** ** Quaternions as rotations *)

Section Quaternions.
Context {A : Type} `{Scalar A}.
Local Open Scope scalar_scope.

(** The product of two quaternions. *)
Definition quat_mul (p q : Quaternion A) : Quaternion A :=
  quat (qw p * qw q - qx p * qx q - qy p * qy q - qz p * qz q)
       (qw p * qx q + qx p * qw q + qy p * qz q - qz p * qy q)
       (qw p * qy q - qx p * qz q + qy p * qw q + qz p * qx q)
       (qw p * qz q + qx p * qy q - qy p * qx q + qz p * qw q).

Definition quat_neg (q : Quaternion A) : Quaternion A :=
  quat (- qw q) (- qx q) (- qy q) (- qz q).

(** The half turn about the x-axis as a quaternion. *)
Definition quat_half_turn_x : Quaternion A := quat szero sone szero szero.

(** The rotation matrix that a unit quaternion stands for. *)
Definition toRotationMatrix (q : Quaternion A) : Mat3 A :=
  let tx := stwo * qx q in
  let ty := stwo * qy q in
  let tz := stwo * qz q in
  let twx := tx * qw q in
  let twy := ty * qw q in
  let twz := tz * qw q in
  let txx := tx * qx q in
  let txy := ty * qx q in
  let txz := tz * qx q in
  let tyy := ty * qy q in
  let tyz := tz * qy q in
  let tzz := tz * qz q in
  mat3 (sone - (tyy + tzz)) (txy - twz) (txz + twy)
       (txy + twz) (sone - (txx + tzz)) (tyz - twx)
       (txz - twy) (tyz + twx) (sone - (txx + tyy)).
End Quaternions.

(** A quaternion with a NaN among its coefficients. *)
Definition quat_has_nan (q : Quaternion float) : bool :=
  PrimFloat.is_nan (qw q) || PrimFloat.is_nan (qx q)
  || PrimFloat.is_nan (qy q) || PrimFloat.is_nan (qz q).

(** A homography with determinant 1 whose first two columns are far from
    orthogonal. *)
Definition skew3 : Mat3 float := (mat3 1 6 0 0 1 0 0 8 1)%float.
(** A homography with a zero second column. *)
Definition flat3 : Mat3 float := (mat3 1 0 0 0 0 0 0 0 1)%float.

(** ** The mutex of the node *)

(** How a call ends: it returns, it throws, or it does not return, as
    [mutex.lock()] does not while the mutex is held.  ([std::mutex] is
    not recursive: another thread waits for an unlock that does not come,
    and for the thread that holds the mutex the standard leaves the call
    undefined and names the deadlock; both are taken as not returning.) *)
Inductive Outcome (T : Type) : Type :=
  | returned (v : T)
  | thrown (e : exception)
  | blocked.
Arguments returned {T} _.
Arguments thrown {T} _.
Arguments blocked {T}.

Section Mutex.
Context {A : Type} `{Scalar A} `{External A}.
Abbreviation Node := (AprilTagNode A apriltag_family_t).

(** [onParameter] with the mutex, [locked] telling whether it is held
    when the call starts.  The lock is taken before the loop (l.284) and
    released after it (l.302) and by nothing else: an exception of
    [get_value] leaves the function from inside the loop, with the mutex
    held. *)
Definition onParameter_locking (locked : bool) (node : Node)
    (parameters : list (rclcpp_Parameter A))
  : bool * Node * Outcome SetParametersResult :=
  if locked then (locked, node, blocked)
  else
    match onParameter_loop node parameters with
    | (node', Some e) => (true, node', thrown e)
    | (node', None) => (false, node', returned (mkResult true ""))
    end.

(** [onCamera] with the mutex: a frame that is processed takes the lock
    around the detection (l.222 to l.224), after the test of [enabled]
    and the conversion of the picture. *)
Definition onCamera_locking (locked : bool) (node : Node)
    (msg_img : Image) (msg_ci : CameraInfo A)
  : bool * list Event * Outcome unit :=
  if negb (enabled node) then (locked, [], returned tt)
  else
    match toCvShare_mono8 msg_img with
    | None => (locked, [], thrown cv_bridge_Exception)
    | Some _ =>
        if locked then (locked, [], blocked)
        else
          match onCamera node msg_img msg_ci with
          | (events, Some e) => (false, events, thrown e)
          | (events, None) => (false, events, returned tt)
          end
    end.
End Mutex.

(** ** The constructor and the parameter overrides *)

Section Options.
Context {A : Type} `{Scalar A} `{External A}.
Abbreviation Node := (AprilTagNode A apriltag_family_t).







End Options.


(** ** Tactics: the operations of [R] and of vectors unfolded *)

Ltac unfold_R :=
  cbv [sadd ssub smul sdiv sneg ssqrt sgtb szero sone stwo shalf R_Scalar] in *.

Ltac unfold_vec :=
  cbv [getPose getPose_R getPose_tt getPose_T translation_spec negate_cols_1_2
       rot_x determinant cofactor00 cofactor10 cofactor20 mat_mul of_cols
       cross dot squaredNorm norm sum3 row col vscale vdiv translation
       vx vy vz m00 m01 m02 m10 m11 m12 m20 m21 m22] in *.

Ltac unfold_checked :=
  cbv [sadd ssub smul sdiv sneg ssqrt sgtb szero sone stwo shalf
       checked_Scalar R_Scalar] in *.

(** * Properties *)

(** ** Reconfiguration *)

Section FieldFacts.
Context {A F : Type} `{Scalar A}.
Implicit Types (node : AprilTagNode A F) (p : rclcpp_Parameter A) (k : Key).

Lemma classify_key_name k : classify (key_name k) = Some k.
Proof. destruct k; reflexivity. Qed.

Lemma classify_Some name k : classify name = Some k -> name = key_name k.
Proof.
  unfold classify. intros Hf.
  apply find_some in Hf as [_ Heq]. by apply String.eqb_eq in Heq.
Qed.

Lemma classify_None name : classify name = None <-> name ∉ recognized.
Proof.
  split.
  - intros Hn Hin. unfold recognized in Hin.
    apply list_elem_of_fmap in Hin as (k & -> & _).
    rewrite classify_key_name in Hn. discriminate.
  - intros Hn. destruct (classify name) as [k|] eqn:Hc; [|done].
    exfalso. apply Hn. apply classify_Some in Hc as ->.
    unfold recognized. apply list_elem_of_fmap. exists k. split; [done|].
    destruct k; set_solver.
Qed.

(** The loop body, by the key of the name. *)
Lemma onParameter_body_classify node p :
  onParameter_body node p =
  match classify (get_name p) with
  | None => inr node
  | Some k =>
      match store k (get_parameter_value p) with
      | Some w => inr (write k w node)
      | None => inl (InvalidParameterTypeException (get_name p))
      end
  end.
Proof.
  unfold onParameter_body, IF, assign_check, assign, classify.
  cbn [all_keys find key_name].
  repeat (destruct (String.eqb (get_name p) _);
          [ destruct (get_parameter_value p); reflexivity | ]).
  reflexivity.
Qed.

Lemma read_write_eq k w node v :
  store k v = Some w -> read k (write k w node) = w.
Proof. destruct k, v; cbn; intros [= <-]; reflexivity. Qed.

Lemma read_write_ne k k' w node : k <> k' -> read k' (write k w node) = read k' node.
Proof. destruct k, k', w; cbn; congruence. Qed.

Lemma fixed_part_write k w node : fixed_part (write k w node) = fixed_part node.
Proof. destruct k, w; reflexivity. Qed.

(** A node is its fixed part and its ten fields. *)
Lemma node_ext node node' :
  fixed_part node = fixed_part node' ->
  (forall k, read k node = read k node') -> node = node'.
Proof.
  intros Hf Hr.
  destruct node as [? [] ? ? ? ? ? ? ?], node' as [? [] ? ? ? ? ? ? ?].
  injection Hf as -> -> -> ->.
  pose proof (Hr detector_threads) as [= ->].
  pose proof (Hr detector_decimate) as [= ->].
  pose proof (Hr detector_blur) as [= ->].
  pose proof (Hr detector_refine) as [= ->].
  pose proof (Hr detector_sharpening) as [= ->].
  pose proof (Hr detector_debug) as [= ->].
  pose proof (Hr key_max_hamming) as [= ->].
  pose proof (Hr key_profile) as [= ->].
  pose proof (Hr key_z_up) as [= ->].
  pose proof (Hr key_enabled) as [= ->].
  reflexivity.
Qed.

Lemma well_typed_body node p :
  well_typed p = true -> exists node', onParameter_body node p = inr node'.
Proof.
  rewrite onParameter_body_classify. unfold well_typed.
  destruct (classify (get_name p)); [|eauto].
  destruct (store _ _); [eauto|discriminate].
Qed.

Lemma ill_typed_body node p :
  well_typed p = false ->
  onParameter_body node p = inl (InvalidParameterTypeException (get_name p)).
Proof.
  rewrite onParameter_body_classify. unfold well_typed.
  destruct (classify (get_name p)); [|discriminate].
  destruct (store _ _); [discriminate|done].
Qed.

(** A batch of well-typed updates runs to the end of the loop. *)
Lemma onParameter_loop_well_typed ps : forall node,
  Forall (fun p => well_typed p = true) ps ->
  (onParameter_loop node ps).2 = None.
Proof.
  induction ps as [|p ps IH]; intros node Hwt; [done|].
  inversion Hwt as [|? ? Hp Hps]; subst. cbn.
  destruct (well_typed_body node p Hp) as [node' ->]. by apply IH.
Qed.

(** The loop takes the updates in the order of the list. *)
Lemma onParameter_loop_app ps1 ps2 node :
  (onParameter_loop node ps1).2 = None ->
  onParameter_loop node (ps1 ++ ps2) =
  onParameter_loop (onParameter_loop node ps1).1 ps2.
Proof.
  revert node. induction ps1 as [|p ps1 IH]; intros node; [done|].
  cbn. destruct (onParameter_body node p) as [e|node']; [discriminate|].
  apply IH.
Qed.

Lemma fixed_part_body node p node' :
  onParameter_body node p = inr node' -> fixed_part node' = fixed_part node.
Proof.
  rewrite onParameter_body_classify.
  destruct (classify _); [destruct (store _ _)|]; intros [= <-]; [|done].
  apply fixed_part_write.
Qed.

Lemma fixed_part_loop ps : forall node,
  fixed_part (onParameter_loop node ps).1 = fixed_part node.
Proof.
  induction ps as [|p ps IH]; intros node; [done|]. cbn.
  destruct (onParameter_body node p) as [e|node'] eqn:Hb; [done|].
  rewrite IH. by eapply fixed_part_body.
Qed.

(** The field of a key after a batch of well-typed updates: the value of
    the last update that carries the key's name, as the field takes it. *)
Lemma read_loop k ps : forall node,
  Forall (fun p => well_typed p = true) ps ->
  match last_named (key_name k) ps with
  | Some p =>
      Some (read k (onParameter_loop node ps).1) = store k (get_parameter_value p)
  | None => read k (onParameter_loop node ps).1 = read k node
  end.
Proof.
  induction ps as [|p ps IH]; intros node Hwt; [done|].
  inversion Hwt as [|? ? Hp Hps]; subst. cbn.
  pose proof (onParameter_body_classify node p) as Hb.
  destruct (well_typed_body node p Hp) as [node' Hn]. rewrite Hn in Hb |- *.
  specialize (IH node' Hps).
  destruct (last_named (key_name k) ps) as [q|]; [exact IH|].
  rewrite IH. clear IH.
  destruct (String.eqb_spec (get_name p) (key_name k)) as [Heq|Hne].
  - rewrite Heq, classify_key_name in Hb.
    destruct (store k (get_parameter_value p)) as [w|] eqn:Hs; [|discriminate].
    injection Hb as ->. f_equal. by eapply read_write_eq.
  - destruct (classify (get_name p)) as [k'|] eqn:Hc.
    + destruct (store k' _) as [w|]; [|discriminate]. injection Hb as ->.
      apply read_write_ne. intros ->. apply Hne. by apply classify_Some.
    + by injection Hb as ->.
Qed.
End FieldFacts.

Section OnParameterFacts.
Context {A F : Type} `{Scalar A}.
Implicit Types (node : AprilTagNode A F) (p : rclcpp_Parameter A) (k : Key).

Lemma onParameter_fst node (ps : list (rclcpp_Parameter A)) :
  (onParameter node ps).1 = (onParameter_loop node ps).1.
Proof. unfold onParameter. by destruct (onParameter_loop node ps) as [? []]. Qed.

Lemma onParameter_snd node (ps : list (rclcpp_Parameter A)) :
  (onParameter node ps).2 =
  match (onParameter_loop node ps).2 with
  | Some e => inl e
  | None => inr (mkResult true "")
  end.
Proof. unfold onParameter. by destruct (onParameter_loop node ps) as [? []]. Qed.

(** An update with a name that is none of the keys changes nothing,
    wherever it stands in a batch and whatever it carries. *)
Lemma onParameter_body_unrecognized node p :
  get_name p ∉ recognized -> onParameter_body node p = inr node.
Proof.
  intros Hn. rewrite onParameter_body_classify.
  apply classify_None in Hn. by rewrite Hn.
Qed.

Lemma onParameter_loop_snoc_unrecognized ps p : forall node,
  get_name p ∉ recognized ->
  onParameter_loop node (ps ++ [p]) = onParameter_loop node ps.
Proof.
  induction ps as [|q ps IH]; intros node Hn; cbn.
  - by rewrite onParameter_body_unrecognized.
  - destruct (onParameter_body node q); [done|]. by apply IH.
Qed.

(** Applying a batch of well-typed updates a second time changes
    nothing. *)
Lemma onParameter_loop_twice ps node :
  Forall (fun p => well_typed p = true) ps ->
  (onParameter_loop (onParameter_loop node ps).1 ps).1 = (onParameter_loop node ps).1.
Proof.
  intros Hwt. apply node_ext.
  - by rewrite !fixed_part_loop.
  - intros k.
    pose proof (read_loop k ps node Hwt) as H1.
    pose proof (read_loop k ps (onParameter_loop node ps).1 Hwt) as H2.
    destruct (last_named (key_name k) ps); [congruence|done].
Qed.

(** Success is reported for the batches of well-typed updates and for no
    other: the first update that is not well-typed ends the call with an
    exception. *)
Lemma onParameter_success_iff node (ps : list (rclcpp_Parameter A)) :
  (onParameter node ps).2 = inr (mkResult true "")
  <-> Forall (fun p => well_typed p = true) ps.
Proof.
  rewrite onParameter_snd. split.
  - revert node. induction ps as [|p ps IH]; intros node Hr; [constructor|].
    cbn in Hr. destruct (well_typed p) eqn:Hp.
    + destruct (well_typed_body node p Hp) as [node' Hb]. rewrite Hb in Hr.
      constructor; [done|]. by apply (IH node').
    + rewrite (ill_typed_body node p Hp) in Hr. discriminate.
  - intros Hwt. by rewrite onParameter_loop_well_typed.
Qed.

(** C9 (amended): for every batch of updates in which each update with a
    recognised name carries a value of the parameter type of its field,
    [onParameter] reports success; and an update whose name is none of the
    recognised keys, whatever its value and wherever it stands in the
    batch, leaves the whole node as it was. *)
Theorem C9_onParameter_success node (parameters : list (rclcpp_Parameter A)) :
  Forall (fun p => well_typed p = true) parameters ->
  (onParameter node parameters).2 = inr (mkResult true "")
  /\ (forall ps1 p ps2, parameters = ps1 ++ p :: ps2 ->
        get_name p ∉ recognized ->
        (onParameter node (ps1 ++ [p])).1 = (onParameter node ps1).1).
Proof.
  intros Hwt. split.
  - rewrite onParameter_snd. by rewrite onParameter_loop_well_typed.
  - intros ps1 p ps2 _ Hn. rewrite !onParameter_fst.
    by rewrite onParameter_loop_snoc_unrecognized.
Qed.

(** C10 (amended): for every batch of updates in which each update with a
    recognised name carries a value of the parameter type of its field,
    the updates are applied in list order, the field of every key ends
    with the value of the last update that carries the key's name (as
    converted to the field's type) and keeps its value when there is
    none, the other members are untouched, and applying the batch a second
    time gives the same state and result. *)
Theorem C10_onParameter_last_writer_wins node (parameters : list (rclcpp_Parameter A)) :
  Forall (fun p => well_typed p = true) parameters ->
  (forall k,
     match last_named (key_name k) parameters with
     | Some p => Some (read k (onParameter node parameters).1)
                 = store k (get_parameter_value p)
     | None => read k (onParameter node parameters).1 = read k node
     end)
  /\ fixed_part (onParameter node parameters).1 = fixed_part node
  /\ onParameter (onParameter node parameters).1 parameters
     = onParameter node parameters
  /\ (forall ps1 ps2, parameters = ps1 ++ ps2 ->
        onParameter node parameters = onParameter (onParameter node ps1).1 ps2).
Proof.
  intros Hwt. repeat split.
  - intros k. rewrite onParameter_fst. by apply read_loop.
  - rewrite onParameter_fst. apply fixed_part_loop.
  - rewrite onParameter_fst.
    pose proof (onParameter_loop_twice parameters node Hwt) as Hst.
    pose proof (onParameter_loop_well_typed parameters node Hwt) as H1.
    pose proof (onParameter_loop_well_typed parameters
                  (onParameter_loop node parameters).1 Hwt) as H2.
    unfold onParameter.
    destruct (onParameter_loop (onParameter_loop node parameters).1 parameters)
      as [n2 e2].
    destruct (onParameter_loop node parameters) as [n1 e1].
    cbn in *. by subst.
  - intros ps1 ps2 ->. apply Forall_app in Hwt as [Hwt1 _].
    rewrite onParameter_fst. unfold onParameter at 1 2.
    by rewrite onParameter_loop_app by by apply onParameter_loop_well_typed.
Qed.
End OnParameterFacts.

(** C9 on the bench. *)
Lemma C9_onParameter_success_witness :
  Forall (fun p => well_typed p = true) bench_batch
  /\ (onParameter (bench_node false) bench_batch).2 = inr (mkResult true "")
  /\ (forall ps1 p ps2, bench_batch = ps1 ++ p :: ps2 ->
        get_name p ∉ recognized ->
        (onParameter (bench_node false) (ps1 ++ [p])).1
        = (onParameter (bench_node false) ps1).1).
Proof.
  split; [repeat constructor|].
  apply (C9_onParameter_success (bench_node false) bench_batch).
  repeat constructor.
Defined.

(** C9, as stated, fails: an update named after a key with a value of
    another type makes [get_value] throw, and no success is reported. *)
Lemma C9_counterexample :
  onParameter (bench_node false)
    [mkParameter "max_hamming" (PARAMETER_STRING "two")]
  = (bench_node false, inl (InvalidParameterTypeException "max_hamming")).
Proof. reflexivity. Qed.

(** C10 on the bench. *)
Lemma C10_onParameter_last_writer_wins_witness :
  Forall (fun p => well_typed p = true) bench_batch
  /\ (forall k,
     match last_named (key_name k) bench_batch with
     | Some p => Some (read k (onParameter (bench_node false) bench_batch).1)
                 = store k (get_parameter_value p)
     | None => read k (onParameter (bench_node false) bench_batch).1
               = read k (bench_node false)
     end)
  /\ fixed_part (onParameter (bench_node false) bench_batch).1
     = fixed_part (bench_node false)
  /\ onParameter (onParameter (bench_node false) bench_batch).1 bench_batch
     = onParameter (bench_node false) bench_batch
  /\ (forall ps1 ps2, bench_batch = ps1 ++ ps2 ->
        onParameter (bench_node false) bench_batch
        = onParameter (onParameter (bench_node false) ps1).1 ps2).
Proof.
  split; [repeat constructor|].
  apply (C10_onParameter_last_writer_wins (bench_node false) bench_batch).
  repeat constructor.
Defined.

(** C10, as stated, fails: the last update named [enabled] carries a
    string, the call ends with an exception there, and the field keeps the
    value of the update before it. *)
Lemma C10_counterexample :
  let batch := [mkParameter "enabled" (PARAMETER_BOOL true);
                mkParameter "enabled" (PARAMETER_STRING "yes")] in
  last_named "enabled" batch
    = Some (mkParameter "enabled" (PARAMETER_STRING "yes"))
  /\ store (A := float) key_enabled (PARAMETER_STRING "yes") = None
  /\ onParameter (bench_node false) batch
     = (bench_node true, inl (InvalidParameterTypeException "enabled"))
  /\ read key_enabled (bench_node true) = FBool true.
Proof. repeat split. Qed.

(** ** The frame callback *)

Section OnCameraFacts.
Context {A : Type} `{Scalar A} `{External A}.
Abbreviation Node := (AprilTagNode A apriltag_family_t).
Implicit Types (node : Node) (det : apriltag_detection_t A).

Lemma map_empty_true {V : Type} (m : gmap Z V) : map_empty m = true <-> m = ∅.
Proof.
  unfold map_empty. rewrite <- map_to_list_empty_iff.
  destruct (map_to_list m); split; intros; done.
Qed.

Lemma count_true {V : Type} (m : gmap Z V) (k : Z) : count m k = true <-> k ∈ dom m.
Proof.
  unfold count. rewrite elem_of_dom.
  destruct (m !! k) eqn:E; split; intros Hx; try done; eauto.
Qed.

(** One turn of the loop appends to both lists or to neither, by
    [survives]. *)
Lemma onCamera_body_survives node header Pinv acc det :
  onCamera_body node header Pinv acc det =
  if survives node det
  then (acc.1 ++ [make_msg_detection det], acc.2 ++ [make_tf node header Pinv det])
  else acc.
Proof.
  unfold onCamera_body, survives.
  rewrite Z.gtb_ltb, Z.ltb_antisym.
  destruct (map_empty (tag_frames node)), (count (tag_frames node) (det_id det)),
    (det_hamming det <=? max_hamming node)%Z; reflexivity.
Qed.

(** The loop: the survivors, in the order of the detector's output. *)
Lemma onCamera_loop node header Pinv dets : forall acc,
  fold_left (onCamera_body node header Pinv) dets acc =
  (acc.1 ++ map make_msg_detection (List.filter (survives node) dets),
   acc.2 ++ map (make_tf node header Pinv) (List.filter (survives node) dets)).
Proof.
  induction dets as [|det dets IH]; intros [ms ts]; cbn [fold_left List.filter map].
  - by rewrite !app_nil_r.
  - rewrite IH, onCamera_body_survives.
    destruct (survives node det); cbn [fst snd map]; [|done].
    by rewrite <- !app_assoc.
Qed.

(** A frame that is processed: the events of the call. *)
Lemma onCamera_processed node msg_img msg_ci im :
  enabled node = true ->
  toCvShare_mono8 msg_img = Some im ->
  onCamera node msg_img msg_ci =
  let kept := List.filter (survives node) (apriltag_detector_detect (td node) im) in
  ([detector_detect (td node) im]
     ++ (if profile node then [timeprofile_display] else [])
     ++ [publish (mkDetectionArray (image_header msg_img)
                    (map make_msg_detection kept));
         sendTransform
           (map (make_tf node (image_header msg_img)
                   (inverse (leftCols3 (ci_p msg_ci)))) kept)],
   None).
Proof.
  intros He Him. unfold onCamera. rewrite He, Him. cbn [negb].
  by rewrite onCamera_loop.
Qed.

Lemma emitted_processed node msg_img msg_ci im :
  enabled node = true ->
  toCvShare_mono8 msg_img = Some im ->
  let kept := List.filter (survives node) (apriltag_detector_detect (td node) im) in
  emitted_detections (onCamera node msg_img msg_ci).1
    = map make_msg_detection kept
  /\ emitted_transforms (onCamera node msg_img msg_ci).1
    = map (make_tf node (image_header msg_img)
             (inverse (leftCols3 (ci_p msg_ci)))) kept.
Proof.
  intros He Him. rewrite (onCamera_processed _ _ _ im He Him).
  unfold emitted_detections, emitted_transforms.
  destruct (profile node); cbn; by rewrite !app_nil_r.
Qed.

(** A frame that is not processed puts out nothing. *)
Lemma emitted_unprocessed node msg_img msg_ci :
  enabled node = false \/ toCvShare_mono8 msg_img = None ->
  (onCamera node msg_img msg_ci).1 = [].
Proof.
  unfold onCamera. intros [-> | Hn]; [done|].
  rewrite Hn. by destruct (enabled node).
Qed.

(** C5: when the node is not enabled, a frame causes no event at all: the
    detector is not invoked, nothing is published or broadcast, and the
    call returns without an exception; the batches of detection records
    and of poses are empty. *)
Theorem C5_onCamera_disabled node (msg_img : Image) (msg_ci : CameraInfo A) :
  enabled node = false ->
  onCamera node msg_img msg_ci = ([], None)
  /\ emitted_detections (onCamera node msg_img msg_ci).1 = []
  /\ emitted_transforms (onCamera node msg_img msg_ci).1 = []
  /\ existsb is_detect (onCamera node msg_img msg_ci).1 = false.
Proof.
  intros He. unfold onCamera. rewrite He. done.
Qed.

(** C6: every detection record put out for a frame has, when the map from
    IDs to names is not empty, its ID in that map, and a hamming distance
    not above [max_hamming]; and on a processed frame a raw detection whose
    hamming distance is exactly [max_hamming] is put out when the map is
    empty or holds its ID. *)
Theorem C6_onCamera_filters node (msg_img : Image) (msg_ci : CameraInfo A) :
  (forall d, d ∈ emitted_detections (onCamera node msg_img msg_ci).1 ->
     (tag_frames node <> ∅ -> msg_id d ∈ dom (tag_frames node))
     /\ (msg_hamming d <= max_hamming node)%Z)
  /\ (forall im det,
        enabled node = true ->
        toCvShare_mono8 msg_img = Some im ->
        det ∈ apriltag_detector_detect (td node) im ->
        det_hamming det = max_hamming node ->
        tag_frames node = ∅ \/ det_id det ∈ dom (tag_frames node) ->
        make_msg_detection det
          ∈ emitted_detections (onCamera node msg_img msg_ci).1).
Proof.
  split.
  - intros d Hd.
    destruct (enabled node) eqn:He;
      [destruct (toCvShare_mono8 msg_img) as [im|] eqn:Him|].
    + destruct (emitted_processed node msg_img msg_ci im He Him) as [Hm _].
      rewrite Hm in Hd. apply list_elem_of_fmap in Hd as (det & -> & Hin).
      apply list_elem_of_In, filter_In in Hin as [_ Hs].
      unfold survives in Hs. apply andb_prop in Hs as [Hid Hh].
      split.
      * intros Hne. apply orb_prop in Hid as [He'|Hc].
        -- by apply map_empty_true in He'.
        -- by apply count_true.
      * cbn. by apply Z.leb_le.
    + rewrite emitted_unprocessed in Hd by by right. by apply elem_of_nil in Hd.
    + rewrite emitted_unprocessed in Hd by by left. by apply elem_of_nil in Hd.
  - intros im det He Him Hin Hh Hid.
    destruct (emitted_processed node msg_img msg_ci im He Him) as [-> _].
    apply list_elem_of_fmap. exists det. split; [done|].
    apply list_elem_of_In, filter_In. split; [by apply list_elem_of_In|].
    unfold survives. apply andb_true_intro. split.
    + apply orb_true_intro. destruct Hid as [Hid|Hid].
      * left. by apply map_empty_true.
      * right. by apply count_true.
    + apply Z.leb_le. lia.
Qed.

(** C7: on a processed frame the detection records and the transforms put
    out are those of the raw detections that survive the two filters, one
    of each per survivor and in the order of the detector's output; so the
    two batches have the length of the list of survivors. *)
Theorem C7_onCamera_batches node (msg_img : Image) (msg_ci : CameraInfo A) im :
  enabled node = true ->
  toCvShare_mono8 msg_img = Some im ->
  let kept := List.filter (survives node) (apriltag_detector_detect (td node) im) in
  emitted_detections (onCamera node msg_img msg_ci).1
    = map make_msg_detection kept
  /\ emitted_transforms (onCamera node msg_img msg_ci).1
    = map (make_tf node (image_header msg_img)
             (inverse (leftCols3 (ci_p msg_ci)))) kept
  /\ length (emitted_detections (onCamera node msg_img msg_ci).1) = length kept
  /\ length (emitted_transforms (onCamera node msg_img msg_ci).1) = length kept.
Proof.
  intros He Him kept.
  destruct (emitted_processed node msg_img msg_ci im He Him) as [Hm Ht].
  rewrite Hm, Ht. by rewrite !length_map.
Qed.
End OnCameraFacts.

(** The whole run on the bench: the detector is called, the raw
    detection of the unknown ID 5 and the one with a corrected bit are
    dropped, and the two others are published and broadcast under their
    names. *)
Example onCamera_bench :
  map is_detect (onCamera (bench_node true) bench_image bench_camera_info).1
    = [true; false; false]
  /\ map msg_id (emitted_detections
        (onCamera (bench_node true) bench_image bench_camera_info).1) = [7; 3]%Z
  /\ map child_frame_id (emitted_transforms
        (onCamera (bench_node true) bench_image bench_camera_info).1)
     = ["dock"; "door"]
  /\ map (fun t => vz (translation (transform t))) (emitted_transforms
        (onCamera (bench_node true) bench_image bench_camera_info).1)
     = [0.25; 1]%float.
Proof. repeat split. Qed.

(** Without configured names every ID passes and a frame is named after
    the family and the ID. *)
Example onCamera_bench_unnamed :
  map child_frame_id (emitted_transforms
    (onCamera (set_tag_frames ∅ (bench_node true)) bench_image
       bench_camera_info).1)
  = ["tag36h11:7"; "tag36h11:5"; "tag36h11:3"].
Proof. reflexivity. Qed.

(** C5 on the bench: the node switched off. *)
Lemma C5_onCamera_disabled_witness :
  enabled (bench_node false) = false
  /\ onCamera (bench_node false) bench_image bench_camera_info = ([], None)
  /\ emitted_detections
       (onCamera (bench_node false) bench_image bench_camera_info).1 = []
  /\ emitted_transforms
       (onCamera (bench_node false) bench_image bench_camera_info).1 = []
  /\ existsb is_detect
       (onCamera (bench_node false) bench_image bench_camera_info).1 = false.
Proof.
  split; [reflexivity|].
  apply (C5_onCamera_disabled (bench_node false) bench_image bench_camera_info).
  reflexivity.
Defined.

(** C6 on the bench: the detection of ID 3 without corrected bits is put
    out, [max_hamming] being 0. *)
Lemma C6_onCamera_filters_witness :
  make_msg_detection (bench_detection 3 0)
    ∈ emitted_detections (onCamera (bench_node true) bench_image bench_camera_info).1.
Proof.
  apply (proj2 (C6_onCamera_filters (bench_node true) bench_image bench_camera_info)
           (snd bench_image) (bench_detection 3 0)).
  - reflexivity.
  - reflexivity.
  - cbn. set_solver.
  - reflexivity.
  - right. cbn. set_solver.
Defined.

(** C7 on the bench: of the four raw detections the IDs 7 and 3 survive,
    in this order, under their configured names. *)
Lemma C7_onCamera_batches_witness :
  enabled (bench_node true) = true
  /\ toCvShare_mono8 bench_image = Some (snd bench_image)
  /\ map msg_id (emitted_detections
       (onCamera (bench_node true) bench_image bench_camera_info).1) = [7; 3]%Z
  /\ map child_frame_id (emitted_transforms
       (onCamera (bench_node true) bench_image bench_camera_info).1)
     = ["dock"; "door"].
Proof.
  split; [reflexivity|]. split; [reflexivity|].
  destruct (C7_onCamera_batches (bench_node true) bench_image bench_camera_info
              (snd bench_image) eq_refl eq_refl) as (-> & -> & _).
  split; vm_compute; reflexivity.
Defined.

(** ** The constructor *)

Section ConstructorFacts.
Context {A : Type} `{Scalar A} `{External A}.

Lemma AprilTagNode_new_declared (p : StartupParameters A) :
  AprilTagNode_new p =
  let node := declared_node p in
  try node <-
    (if negb (empty (p_tag_frames p)) then
       if negb (size_of (p_tag_ids p) =? size_of (p_tag_frames p))%Z
       then inl (mismatch "frames" (size_of (p_tag_ids p)) (size_of (p_tag_frames p)))
       else inr (set_tag_frames
                   (fill (tag_frames node) (p_tag_ids p) (p_tag_frames p)) node)
     else inr node);
  try node <-
    (if negb (empty (p_tag_sizes p)) then
       if negb (size_of (p_tag_ids p) =? size_of (p_tag_sizes p))%Z
       then inl (mismatch "sizes" (size_of (p_tag_ids p)) (size_of (p_tag_sizes p)))
       else inr (set_tag_sizes
                   (fill (tag_sizes node) (p_tag_ids p) (p_tag_sizes p)) node)
     else inr node);
  match tag_create (p_family p) with
  | Some family => inr (set_tf (Some family) node)
  | None => inl (runtime_error ("Unsupported tag family: " +:+ p_family p))
  end.
Proof. reflexivity. Qed.

Lemma size_of_eqb {T U : Type} (l : list T) (l' : list U) :
  (size_of l =? size_of l')%Z = bool_decide (length l = length l').
Proof.
  unfold size_of. case_bool_decide as Hl.
  - rewrite Hl. apply Z.eqb_refl.
  - apply Z.eqb_neq. lia.
Qed.

Lemma fill_nil {V : Type} (m : gmap Z V) (ids : list Z) : fill m ids [] = m.
Proof. by destruct ids. Qed.

(** C4 (amended): construction ends with a [runtime_error], and yields no
    node, whenever the list of frame names is not empty and differs in
    length from the list of IDs, or the list of sizes is not empty and
    differs in length from the list of IDs.  An empty list of names or of
    sizes is accepted whatever the number of IDs: when each of the two
    lists is empty or as long as the list of IDs, and the family is
    supported, the node is constructed, with the maps filled from the
    lists. *)
Theorem C4_constructor_mismatch (p : StartupParameters A) :
  ((p_tag_frames p <> [] /\ length (p_tag_ids p) <> length (p_tag_frames p))
   \/ (p_tag_sizes p <> [] /\ length (p_tag_ids p) <> length (p_tag_sizes p)) ->
   exists what, AprilTagNode_new p = inl (runtime_error what))
  /\ (p_tag_frames p = [] \/ length (p_tag_ids p) = length (p_tag_frames p) ->
      p_tag_sizes p = [] \/ length (p_tag_ids p) = length (p_tag_sizes p) ->
      forall family, tag_create (p_family p) = Some family ->
      AprilTagNode_new p = inr (constructed_node p family)).
Proof.
  rewrite AprilTagNode_new_declared. unfold constructed_node. cbv zeta.
  rewrite !size_of_eqb. split.
  - intros [[Hne Hlen]|[Hne Hlen]].
    + destruct (p_tag_frames p); [done|]. cbn [empty negb].
      rewrite bool_decide_eq_false_2 by done. cbn. eauto.
    + destruct (p_tag_sizes p) as [|s sizes]; [done|]. cbn [empty negb].
      rewrite (bool_decide_eq_false_2 _ Hlen).
      destruct (negb (empty (p_tag_frames p))); [case_bool_decide|]; cbn; eauto;
        destruct (tag_create _); eauto.
  - intros Hf Hs family ->.
    assert ((if negb (empty (p_tag_frames p))
             then negb (bool_decide (length (p_tag_ids p) = length (p_tag_frames p)))
             else false) = false) as Ef.
    { destruct Hf as [-> | Hf]; [reflexivity|].
      rewrite bool_decide_eq_true_2 by done.
      destruct (empty (p_tag_frames p)); reflexivity. }
    assert ((if negb (empty (p_tag_sizes p))
             then negb (bool_decide (length (p_tag_ids p) = length (p_tag_sizes p)))
             else false) = false) as Es.
    { destruct Hs as [-> | Hs]; [reflexivity|].
      rewrite bool_decide_eq_true_2 by done.
      destruct (empty (p_tag_sizes p)); reflexivity. }
    destruct (p_tag_frames p) as [|f frames], (p_tag_sizes p) as [|z sizes];
      cbn [empty negb] in *; rewrite ?fill_nil;
      repeat match goal with
             | E : negb (bool_decide ?P) = false |- _ =>
                 apply negb_false_iff in E; rewrite E; clear E
             end; reflexivity.
Qed.
End ConstructorFacts.

(** C4 on the bench: two IDs and one name. *)
Lemma C4_constructor_mismatch_witness :
  exists what,
    AprilTagNode_new (bench_startup [3; 7]%Z ["door"] [] false)
    = inl (runtime_error what).
Proof.
  apply (proj1 (C4_constructor_mismatch (bench_startup [3; 7]%Z ["door"] [] false))).
  left. split; [discriminate | cbn; lia].
Defined.

(** C4, as stated, fails: with two IDs and no names and no sizes, the
    lengths differ and the node is constructed all the same. *)
Lemma C4_counterexample :
  length [3; 7]%Z <> length (@nil string)
  /\ AprilTagNode_new (bench_startup [3; 7]%Z [] [] false)
     = inr (mkNode (Some "tag36h11")
              (mkDetector 1%Z 2%float 0%float true 0.25%float false)
              1%float 0%Z false ∅ ∅ true false).
Proof. split; [discriminate | vm_compute; reflexivity]. Qed.

(** With as many names and sizes as IDs the node of the bench is what the
    constructor yields. *)
Lemma AprilTagNode_new_bench enabled :
  AprilTagNode_new (bench_startup [3; 7]%Z ["door"; "dock"] [2; 0.5]%float enabled)
  = inr (bench_node enabled).
Proof. destruct enabled; reflexivity. Qed.

(** ** The pose estimator in exact arithmetic *)

Section PoseFactsR.
Local Open Scope R_scope.
Implicit Types (u v : Vector3 R) (M : Mat3 R).

Lemma dot_cross_l u v : dot u (cross u v) = 0.
Proof. destruct u, v. unfold_vec. unfold_R. ring. Qed.

Lemma dot_cross_r u v : dot v (cross u v) = 0.
Proof. destruct u, v. unfold_vec. unfold_R. ring. Qed.

(** Lagrange's identity. *)
Lemma dot_cross_cross u v :
  dot (cross u v) (cross u v) = dot u u * dot v v - dot u v * dot u v.
Proof. destruct u, v. unfold_vec. unfold_R. ring. Qed.

Lemma determinant_of_cols_cross u v :
  determinant (of_cols u v (cross u v)) = dot (cross u v) (cross u v).
Proof. destruct u, v. unfold_vec. unfold_R. ring. Qed.

Lemma determinant_mat_mul (L N : Mat3 R) :
  determinant (mat_mul L N) = determinant L * determinant N.
Proof. destruct L, N. unfold_vec. unfold_R. ring. Qed.

(** The first two columns of a matrix with a determinant are not zero. *)
Lemma determinant_cols_pos M :
  determinant M <> 0 -> 0 < dot (col M 0) (col M 0) /\ 0 < dot (col M 1) (col M 1).
Proof.
  destruct M as [a b c d e f g h i]. unfold_vec. unfold_R. intros Hd.
  split.
  - destruct (Rle_lt_dec (a * a + (d * d + g * g)) 0) as [Hle|]; [|done].
    exfalso. apply Hd.
    assert (a = 0) as -> by nra. assert (d = 0) as -> by nra.
    assert (g = 0) as -> by nra. ring.
  - destruct (Rle_lt_dec (b * b + (e * e + h * h)) 0) as [Hle|]; [|done].
    exfalso. apply Hd.
    assert (b = 0) as -> by nra. assert (e = 0) as -> by nra.
    assert (h = 0) as -> by nra. ring.
Qed.

Lemma normalized_pos v :
  0 < dot v v -> normalized v = vdiv v (sqrt (dot v v)).
Proof.
  intros Hp. unfold normalized, squaredNorm. unfold_R.
  destruct (Rlt_dec 0 (dot v v)); [reflexivity | contradiction].
Qed.

Lemma dot_normalized u v :
  0 < dot u u -> 0 < dot v v ->
  dot (normalized u) (normalized v) = dot u v / (sqrt (dot u u) * sqrt (dot v v)).
Proof.
  intros Hu Hv. rewrite !normalized_pos by done.
  pose proof (sqrt_lt_R0 _ Hu). pose proof (sqrt_lt_R0 _ Hv).
  generalize dependent (sqrt (dot u u)). generalize dependent (sqrt (dot v v)).
  intros nv Hnv nu Hnu. destruct u, v. unfold_vec. unfold_R. field. lra.
Qed.

Lemma dot_normalized_self v : 0 < dot v v -> dot (normalized v) (normalized v) = 1.
Proof.
  intros Hv. rewrite dot_normalized by done.
  rewrite sqrt_sqrt by lra. field. lra.
Qed.

Lemma dot_normalized_sq u v :
  0 < dot u u -> 0 < dot v v ->
  dot (normalized u) (normalized v) * dot (normalized u) (normalized v)
  = (dot u v * dot u v) / (dot u u * dot v v).
Proof.
  intros Hu Hv. rewrite dot_normalized by done.
  pose proof (sqrt_lt_R0 _ Hu) as Hsu. pose proof (sqrt_lt_R0 _ Hv) as Hsv.
  pose proof (sqrt_sqrt (dot u u) (Rlt_le _ _ Hu)) as Eu.
  pose proof (sqrt_sqrt (dot v v) (Rlt_le _ _ Hv)) as Ev.
  set (su := sqrt (dot u u)) in *. set (sv := sqrt (dot v v)) in *.
  clearbody su sv. rewrite <- Eu, <- Ev. field. lra.
Qed.

(** The columns of the matrix [R] of [getPose]. *)
Lemma getPose_R_cols (H0 Pinv : Mat3 R) (z_up : bool) :
  let T := getPose_T H0 Pinv in
  let c0 := normalized (col T 0) in
  let c1 := normalized (col T 1) in
  let s := if z_up then -1 else 1 in
  col (getPose_R H0 Pinv z_up) 0 = c0
  /\ col (getPose_R H0 Pinv z_up) 1 = vscale c1 s
  /\ col (getPose_R H0 Pinv z_up) 2 = vscale (cross c0 c1) s.
Proof.
  cbv zeta. unfold getPose_R.
  destruct (normalized (col (getPose_T H0 Pinv) 0)) as [x0 y0 z0],
           (normalized (col (getPose_T H0 Pinv) 1)) as [x1 y1 z1].
  destruct z_up; cbn; unfold vscale, cross; cbn; unfold_R;
    repeat split; f_equal; ring.
Qed.

Lemma of_cols_col M : of_cols (col M 0) (col M 1) (col M 2) = M.
Proof. by destruct M. Qed.

Lemma norm_1 v : dot v v = 1 -> norm v = 1.
Proof.
  intros Hv. unfold norm, squaredNorm. rewrite Hv. unfold_R. apply sqrt_1.
Qed.

(** What [getPose] makes of a [T] whose first two columns are not zero:
    two unit columns, a third one orthogonal to both, and a determinant
    that falls short of 1 by the square of the product of the first two. *)
Lemma getPose_R_shape (H0 Pinv : Mat3 R) (z_up : bool) :
  let T := getPose_T H0 Pinv in
  let M := getPose_R H0 Pinv z_up in
  0 < dot (col T 0) (col T 0) -> 0 < dot (col T 1) (col T 1) ->
  dot (col M 0) (col M 0) = 1
  /\ dot (col M 1) (col M 1) = 1
  /\ dot (col M 0) (col M 2) = 0
  /\ dot (col M 1) (col M 2) = 0
  /\ dot (col M 2) (col M 2) = 1 - dot (col M 0) (col M 1) * dot (col M 0) (col M 1)
  /\ determinant M = 1 - dot (col M 0) (col M 1) * dot (col M 0) (col M 1)
  /\ dot (col M 0) (col M 1) * dot (col M 0) (col M 1)
     = (dot (col T 0) (col T 1) * dot (col T 0) (col T 1))
       / (dot (col T 0) (col T 0) * dot (col T 1) (col T 1)).
Proof.
  intros T M H0p H1p.
  destruct (getPose_R_cols H0 Pinv z_up) as (E0 & E1 & E2).
  fold T in E0, E1, E2. fold M in E0, E1, E2.
  pose proof (dot_normalized_self _ H0p) as U0.
  pose proof (dot_normalized_self _ H1p) as U1.
  pose proof (dot_normalized_sq _ _ H0p H1p) as U01.
  pose proof (dot_cross_l (normalized (col T 0)) (normalized (col T 1))) as X0.
  pose proof (dot_cross_r (normalized (col T 0)) (normalized (col T 1))) as X1.
  pose proof (dot_cross_cross (normalized (col T 0)) (normalized (col T 1))) as L.
  pose proof (determinant_of_cols_cross (normalized (col T 0)) (normalized (col T 1))) as D.
  rewrite <- (of_cols_col M), E0, E1, E2. rewrite <- U01.
  rewrite U0, U1 in L. rewrite L in D.
  clear E0 E1 E2 U01 M.
  destruct (normalized (col T 0)) as [x0 y0 z0], (normalized (col T 1)) as [x1 y1 z1].
  revert U0 U1 X0 X1 L D. unfold_vec. unfold_R. intros.
  destruct z_up; repeat split; lra.
Qed.
End PoseFactsR.

Section PoseClaimsR.
Local Open Scope R_scope.

(** The translation that [getPose] computes: the third column of [T]
    over the norm of the first column alone, times half the size. *)
Lemma getPose_tt_first_column (H0 Pinv : Mat3 R) (size : R) :
  let T := getPose_T H0 Pinv in
  0 < dot (col T 0) (col T 0) ->
  getPose_tt H0 Pinv size = vscale (vdiv (col T 2) (norm (col T 0))) (size / 2).
Proof.
  intros T Hp. unfold getPose_tt. fold T.
  pose proof (sqrt_lt_R0 _ Hp) as Hn. change (sqrt (dot (col T 0) (col T 0)))
    with (norm (col T 0)) in Hn.
  generalize dependent (norm (col T 0)). intros n Hn.
  destruct (col T 2). unfold vscale, vdiv. cbn. unfold_R. f_equal; field; lra.
Qed.

(** C2 (amended): in exact arithmetic, for a homography and a [Pinv] with
    determinants, the matrix that [getPose] hands to the quaternion has
    columns 0 and 1 of unit length and a column 2 orthogonal to both; the
    squared length of column 2 and the determinant are both 1 minus the
    square of the product of columns 0 and 1.  It is a proper orthonormal
    rotation exactly when the first two columns of [T = Pinv * H] are
    orthogonal. *)
Theorem C2_getPose_rotation_shape (H0 Pinv : Mat3 R) (z_up : bool) :
  determinant H0 <> 0 -> determinant Pinv <> 0 ->
  let T := getPose_T H0 Pinv in
  let M := getPose_R H0 Pinv z_up in
  norm (col M 0) = 1
  /\ norm (col M 1) = 1
  /\ dot (col M 0) (col M 2) = 0
  /\ dot (col M 1) (col M 2) = 0
  /\ dot (col M 2) (col M 2) = 1 - dot (col M 0) (col M 1) * dot (col M 0) (col M 1)
  /\ determinant M = 1 - dot (col M 0) (col M 1) * dot (col M 0) (col M 1)
  /\ (rotation_within 0 M <-> dot (col T 0) (col T 1) = 0).
Proof.
  intros HH HP T M.
  assert (determinant T <> 0) as HT.
  { unfold T, getPose_T. rewrite determinant_mat_mul. nra. }
  destruct (determinant_cols_pos T HT) as [H0p H1p].
  destruct (getPose_R_shape H0 Pinv z_up H0p H1p)
    as (U0 & U1 & X0 & X1 & L & D & Q).
  fold M in U0, U1, X0, X1, L, D, Q. fold T in Q.
  split_and!; try (by apply norm_1); try done.
  split.
  - intros (_ & _ & _ & Hd & _).
    assert (dot (col M 0) (col M 1) = 0) as Hz.
    { revert Hd. unfold Rabs. destruct (Rcase_abs _); lra. }
    rewrite Hz in Q.
    assert (dot (col T 0) (col T 1) * dot (col T 0) (col T 1) = 0) as Hsq.
    { apply (Rmult_eq_reg_r (/ (dot (col T 0) (col T 0) * dot (col T 1) (col T 1)))).
      - unfold Rdiv in Q. lra.
      - apply Rinv_neq_0_compat. nra. }
    nra.
  - intros Hz. rewrite Hz in Q.
    assert (dot (col M 0) (col M 1) = 0) as Hm.
    { unfold Rdiv in Q. nra. }
    rewrite Hm in L, D.
    assert (dot (col M 2) (col M 2) = 1) as U2 by lra.
    unfold rotation_within.
    rewrite (norm_1 _ U0), (norm_1 _ U1), (norm_1 _ U2), Hm, X0, X1, D.
    replace (1 - 0 * 0 - 1) with 0 by ring. replace (1 - 1) with 0 by ring.
    rewrite Rabs_R0. repeat split; lra.
Qed.

End PoseClaimsR.

(** C2 on the shear. *)
Lemma C2_getPose_rotation_shape_witness :
  (determinant shear3_R <> 0%R /\ determinant identity3_R <> 0%R)
  /\ determinant (getPose_R shear3_R identity3_R true)
     = (1 - dot (col (getPose_R shear3_R identity3_R true) 0)
              (col (getPose_R shear3_R identity3_R true) 1)
            * dot (col (getPose_R shear3_R identity3_R true) 0)
                  (col (getPose_R shear3_R identity3_R true) 1))%R.
Proof.
  assert (determinant shear3_R <> 0%R /\ determinant identity3_R <> 0%R) as Hd.
  { unfold shear3_R, identity3_R. unfold_vec. unfold_R. split; lra. }
  split; [exact Hd|].
  apply (C2_getPose_rotation_shape shear3_R identity3_R true (proj1 Hd) (proj2 Hd)).
Defined.

(** C2, as stated, fails: for the shear [shear3] and the identity as
    [Pinv] the first two columns of the matrix have the product 3/5 and
    the determinant is 16/25, on binary64 numbers and in exact
    arithmetic. *)
Lemma C2_counterexample :
  float_rotation_within (1 / 1000000)%float (getPose_R shear3 identity3 false) = false
  /\ PrimFloat.ltb 0.5%float
       (dot (col (getPose_R shear3 identity3 false) 0)
            (col (getPose_R shear3 identity3 false) 1)) = true
  /\ determinant (getPose_R shear3_R identity3_R false) = (16 / 25)%R
  /\ ~ rotation_within (1 / 1000000)%R (getPose_R shear3_R identity3_R false).
Proof.
  split; [vm_compute; reflexivity|]. split; [vm_compute; reflexivity|].
  assert (determinant (getPose_R shear3_R identity3_R false) = (16 / 25)%R) as Hdet.
  { pose proof (getPose_R_shape shear3_R identity3_R false) as Hs. cbv zeta in Hs.
    destruct Hs as (_ & _ & _ & _ & _ & D & Q).
    - unfold shear3_R, identity3_R. unfold_vec. unfold_R. lra.
    - unfold shear3_R, identity3_R. unfold_vec. unfold_R. lra.
    - rewrite D, Q. unfold shear3_R, identity3_R. unfold_vec. unfold_R. field. }
  split; [exact Hdet|].
  intros (_ & _ & _ & _ & _ & _ & Hd). rewrite Hdet in Hd.
  revert Hd. unfold Rabs. destruct (Rcase_abs _); lra.
Qed.

(** ** The pose estimator on binary64 numbers *)

(** The scenario of the specification: identity homography, identity
    [Pinv], size 2. *)
Example getPose_identity :
  getPose identity3 identity3 2%float false
  = mkTransform (vec3 0 0 1)%float (quat 1 0 0 0)%float.
Proof. reflexivity. Qed.

(** Where the first two columns of [T] have the same norm, the
    translation is the one of the specification. *)
Lemma getPose_tt_equal_norms {A : Type} `{Scalar A} (H0 Pinv : Mat3 A) (size : A) :
  norm (col (getPose_T H0 Pinv) 0) = norm (col (getPose_T H0 Pinv) 1) ->
  getPose_tt H0 Pinv size = translation_spec H0 Pinv size.
Proof. intros Hn. unfold getPose_tt, translation_spec. cbv zeta. by rewrite <- Hn. Qed.

(** C1: the code divides by the norm of the first column of [T] taken
    twice, not by the average of the norms of the first two columns.  For
    the homography that stretches the second axis by 2, with the identity
    as [Pinv] and the size 2, the norms are 1 and 2 and [getPose] returns
    the translation (0, 0, 1) where the claim gives (0, 0, 1 / 1.5).  In
    exact arithmetic the translation is the third column of [T] over the
    norm of the first column, times half the size. *)
Theorem C1_getPose_translation_first_column_twice :
  translation (getPose stretch3 identity3 2%float false) = (vec3 0 0 1)%float
  /\ translation_spec stretch3 identity3 2%float = (vec3 0 0 (1 / 1.5))%float
  /\ norm (col (getPose_T stretch3 identity3) 0) = 1%float
  /\ norm (col (getPose_T stretch3 identity3) 1) = 2%float
  /\ PrimFloat.ltb (1 / 1.5)%float 1%float = true
  /\ (forall (H0 Pinv : Mat3 R) (size : R) (z_up : bool),
        (0 < dot (col (getPose_T H0 Pinv) 0) (col (getPose_T H0 Pinv) 0))%R ->
        translation (getPose H0 Pinv size z_up)
        = vscale (vdiv (col (getPose_T H0 Pinv) 2)
                       (norm (col (getPose_T H0 Pinv) 0)))
                 (size / 2)%R).
Proof.
  split_and!; try reflexivity.
  intros H0 Pinv size z_up Hp. by apply getPose_tt_first_column.
Qed.

Lemma is_zero_cases (x : float) :
  PrimFloat.is_zero x = true -> x = 0%float \/ x = (-0)%float.
Proof.
  unfold PrimFloat.is_zero. rewrite FloatAxioms.eqb_spec. intros Hc.
  rewrite <- (SF2Prim_Prim2SF x).
  destruct (Prim2SF x) as [[]|[]| |[] m e]; try discriminate Hc; auto.
Qed.

Lemma nan_mul_l (y : float) : (nan * y)%float = nan.
Proof.
  apply Prim2SF_inj. rewrite FloatAxioms.mul_spec.
  change (Prim2SF nan) with S754_nan. change (Prim2SF nan) with S754_nan.
  unfold SF64mul, SFmul. by destruct (Prim2SF y).
Qed.

(** A zero over the norm of a zero column, scaled: NaN. *)
Lemma zero_over_zero_norm (a b c x s : float) :
  PrimFloat.is_zero a = true -> PrimFloat.is_zero b = true ->
  PrimFloat.is_zero c = true -> PrimFloat.is_zero x = true ->
  (x / ((PrimFloat.sqrt (a * a + (b * b + c * c))
         + PrimFloat.sqrt (a * a + (b * b + c * c))) / 2)
   * s)%float = nan.
Proof.
  intros Ha Hb Hc Hx.
  destruct (is_zero_cases a Ha) as [-> | ->], (is_zero_cases b Hb) as [-> | ->],
    (is_zero_cases c Hc) as [-> | ->], (is_zero_cases x Hx) as [-> | ->];
    apply nan_mul_l.
Qed.

(** * Further properties *)

(** ** Reconfiguration *)

Section OnParameterMore.
Context {A F : Type} `{Scalar A}.
Implicit Types (node : AprilTagNode A F) (p : rclcpp_Parameter A) (k : Key).

(** X1: no batch of updates, well-typed or not, reaches the family, the
    default edge size or the two maps from IDs: they are as the
    constructor left them. *)
Theorem onParameter_keeps_startup_members node (parameters : list (rclcpp_Parameter A)) :
  tf (onParameter node parameters).1 = tf node
  /\ tag_edge_size (onParameter node parameters).1 = tag_edge_size node
  /\ tag_frames (onParameter node parameters).1 = tag_frames node
  /\ tag_sizes (onParameter node parameters).1 = tag_sizes node.
Proof.
  rewrite onParameter_fst.
  pose proof (fixed_part_loop parameters node) as Hf. unfold fixed_part in Hf.
  by injection Hf as -> -> -> ->.
Qed.

(** X3: an update writes at most the one field that its name designates:
    after a turn of the loop that does not throw, the field of every key
    other than the key of the update's name is as before. *)
Theorem onParameter_body_writes_one_field node p node' :
  onParameter_body node p = inr node' ->
  forall k, classify (get_name p) <> Some k -> read k node' = read k node.
Proof.
  rewrite onParameter_body_classify. intros Hb k Hk.
  destruct (classify (get_name p)) as [k'|]; [|by injection Hb as <-].
  destruct (store k' _) as [w|]; [|discriminate]. injection Hb as <-.
  apply read_write_ne. congruence.
Qed.

Lemma last_named_Some name (ps : list (rclcpp_Parameter A)) p :
  last_named name ps = Some p -> p ∈ ps /\ get_name p = name.
Proof.
  induction ps as [|q ps IH]; [done|]. cbn.
  destruct (last_named name ps) as [r|].
  - intros [= ->]. destruct (IH eq_refl). split; [by right|done].
  - destruct (String.eqb_spec (get_name q) name); [|done].
    intros [= <-]. split; [by left|done].
Qed.

Lemma last_named_None name (ps : list (rclcpp_Parameter A)) :
  last_named name ps = None <-> forall p, p ∈ ps -> get_name p <> name.
Proof.
  induction ps as [|q ps IH]; cbn.
  - split; [|done]. intros _ p Hp. by apply elem_of_nil in Hp.
  - destruct (last_named name ps) as [r|] eqn:Hl.
    + split; [done|]. intros Hall. exfalso.
      destruct (last_named_Some _ _ _ Hl) as [Hin Hn].
      apply (Hall r); [by right|done].
    + destruct (String.eqb_spec (get_name q) name) as [Heq|Hne].
      * split; [done|]. intros Hall. exfalso. apply (Hall q); [by left|done].
      * split; [|done]. intros _ p Hp.
        apply elem_of_cons in Hp as [->|Hp]; [done|]. by apply IH.
Qed.

Lemma NoDup_names_inj (ps : list (rclcpp_Parameter A)) p q :
  NoDup (get_name <$> ps) -> p ∈ ps -> q ∈ ps -> get_name p = get_name q -> p = q.
Proof.
  induction ps as [|r ps IH]; cbn; intros Hnd Hp Hq Heq.
  - by apply elem_of_nil in Hp.
  - apply NoDup_cons in Hnd as [Hr Hnd].
    apply elem_of_cons in Hp as [->|Hp], Hq as [->|Hq]; auto.
    + exfalso. apply Hr. rewrite Heq. by apply list_elem_of_fmap_2.
    + exfalso. apply Hr. rewrite <- Heq. by apply list_elem_of_fmap_2.
Qed.

Lemma last_named_Permutation name (ps ps' : list (rclcpp_Parameter A)) :
  NoDup (get_name <$> ps) -> ps ≡ₚ ps' ->
  last_named name ps' = last_named name ps.
Proof.
  intros Hnd Hperm.
  destruct (last_named name ps') as [q|] eqn:Hq.
  - destruct (last_named_Some _ _ _ Hq) as [Hin Hn].
    rewrite <- Hperm in Hin.
    destruct (last_named name ps) as [r|] eqn:Hr.
    + destruct (last_named_Some _ _ _ Hr) as [Hin' Hn'].
      f_equal. apply (NoDup_names_inj ps); congruence.
    + exfalso. by apply (proj1 (last_named_None _ _) Hr q).
  - symmetry. apply last_named_None. intros p Hp.
    rewrite Hperm in Hp. by apply (proj1 (last_named_None _ _) Hq).
Qed.

(** X4: the order of a batch matters only between updates of the same
    name: two batches of well-typed updates with pairwise different names
    that are permutations of each other leave the same node and result. *)
Theorem onParameter_order_insensitive node (ps ps' : list (rclcpp_Parameter A)) :
  Forall (fun p => well_typed p = true) ps ->
  NoDup (get_name <$> ps) ->
  ps ≡ₚ ps' ->
  onParameter node ps' = onParameter node ps.
Proof.
  intros Hwt Hnd Hperm.
  assert (Forall (fun p => well_typed p = true) ps') as Hwt' by by rewrite <- Hperm.
  assert ((onParameter_loop node ps').1 = (onParameter_loop node ps).1) as Hst.
  { apply node_ext.
    - by rewrite !fixed_part_loop.
    - intros k.
      pose proof (read_loop k ps node Hwt) as H1.
      pose proof (read_loop k ps' node Hwt') as H2.
      rewrite (last_named_Permutation _ ps ps' Hnd Hperm) in H2.
      destruct (last_named (key_name k) ps); congruence. }
  pose proof (onParameter_loop_well_typed ps node Hwt) as E1.
  pose proof (onParameter_loop_well_typed ps' node Hwt') as E2.
  unfold onParameter.
  destruct (onParameter_loop node ps') as [n2 e2],
           (onParameter_loop node ps) as [n1 e1].
  cbn in *. by subst.
Qed.
End OnParameterMore.

(** X3 on the bench: the switch leaves the threshold alone. *)
Lemma onParameter_body_writes_one_field_witness :
  read key_max_hamming (bench_node true) = read key_max_hamming (bench_node false).
Proof.
  exact (onParameter_body_writes_one_field (bench_node false) (bench_switch true)
           (bench_node true) eq_refl key_max_hamming ltac:(discriminate)).
Defined.

(** X4 on the bench: the threshold and the switch in either order. *)
Lemma onParameter_order_insensitive_witness :
  onParameter (bench_node false)
    [bench_switch true; mkParameter "max_hamming" (PARAMETER_INTEGER 2)]
  = onParameter (bench_node false)
    [mkParameter "max_hamming" (PARAMETER_INTEGER 2); bench_switch true].
Proof.
  apply (onParameter_order_insensitive (bench_node false)
           [mkParameter "max_hamming" (PARAMETER_INTEGER 2); bench_switch true]).
  - repeat constructor.
  - cbn. apply NoDup_cons_2; [|apply NoDup_singleton].
    intros Hin%list_elem_of_singleton. discriminate.
  - apply Permutation_swap.
Defined.

(** ** The frame callback *)

Section OnCameraMore.
Context {A : Type} `{Scalar A} `{External A}.
Abbreviation Node := (AprilTagNode A apriltag_family_t).
Implicit Types (node : Node) (det : apriltag_detection_t A).

Lemma emitted_cases node (msg_img : Image) (msg_ci : CameraInfo A) :
  (exists im, enabled node = true /\ toCvShare_mono8 msg_img = Some im)
  \/ (onCamera node msg_img msg_ci).1 = [].
Proof.
  destruct (enabled node) eqn:He;
    [destruct (toCvShare_mono8 msg_img) as [im|] eqn:Him|].
  - left. eauto.
  - right. apply emitted_unprocessed. by right.
  - right. apply emitted_unprocessed. by left.
Qed.

(** X5: a reconfiguration reaches the next frame.  After a batch of
    well-typed updates whose last update of [enabled] carries false, a
    frame causes no event; after one whose last update of [max_hamming]
    carries the integer [k], no record put out for a frame has a hamming
    distance above [k] converted to [int]. *)
Theorem onParameter_then_onCamera node (parameters : list (rclcpp_Parameter A))
    (msg_img : Image) (msg_ci : CameraInfo A) :
  Forall (fun p => well_typed p = true) parameters ->
  (forall p, last_named "enabled" parameters = Some p ->
     get_parameter_value p = PARAMETER_BOOL false ->
     onCamera (onParameter node parameters).1 msg_img msg_ci = ([], None))
  /\ (forall p k, last_named "max_hamming" parameters = Some p ->
        get_parameter_value p = PARAMETER_INTEGER k ->
        forall d,
          d ∈ emitted_detections
                (onCamera (onParameter node parameters).1 msg_img msg_ci).1 ->
          (msg_hamming d <= to_int k)%Z).
Proof.
  intros Hwt. rewrite onParameter_fst. split.
  - intros p Hl Hv. pose proof (read_loop key_enabled parameters node Hwt) as Hr.
    cbn [key_name] in Hr. rewrite Hl, Hv in Hr. injection Hr as Hr.
    unfold onCamera. by rewrite Hr.
  - intros p k Hl Hv d Hd.
    pose proof (read_loop key_max_hamming parameters node Hwt) as Hr.
    cbn [key_name] in Hr. rewrite Hl, Hv in Hr. injection Hr as Hr.
    destruct (emitted_cases (onParameter_loop node parameters).1 msg_img msg_ci)
      as [(im & He & Him)|Hnil].
    + destruct (emitted_processed _ msg_img msg_ci im He Him) as [Hm _].
      rewrite Hm in Hd. apply list_elem_of_fmap in Hd as (det & -> & Hin).
      apply list_elem_of_In, filter_In in Hin as [_ Hs].
      unfold survives in Hs. apply andb_prop in Hs as [_ Hh].
      rewrite Hr in Hh. cbn. by apply Z.leb_le.
    + rewrite Hnil in Hd. by apply elem_of_nil in Hd.
Qed.

(** X6: a processed frame calls the detector once, first, and then
    publishes one array of detection records and broadcasts one list of
    transforms, in this order, also when no detection survives (the array
    and the list are then empty); only a profiling report can stand
    between the detection and the publication. *)
Theorem onCamera_processed_events node (msg_img : Image) (msg_ci : CameraInfo A) im :
  enabled node = true ->
  toCvShare_mono8 msg_img = Some im ->
  without_profile (onCamera node msg_img msg_ci).1
  = [detector_detect (td node) im;
     publish (mkDetectionArray (image_header msg_img)
                (emitted_detections (onCamera node msg_img msg_ci).1));
     sendTransform (emitted_transforms (onCamera node msg_img msg_ci).1)]
  /\ (onCamera node msg_img msg_ci).2 = None
  /\ (List.filter (survives node) (apriltag_detector_detect (td node) im) = [] ->
      emitted_detections (onCamera node msg_img msg_ci).1 = []
      /\ emitted_transforms (onCamera node msg_img msg_ci).1 = []).
Proof.
  intros He Him.
  destruct (emitted_processed node msg_img msg_ci im He Him) as [Hm Ht].
  rewrite Hm, Ht. rewrite (onCamera_processed _ _ _ im He Him). cbv zeta.
  split_and!.
  - by destruct (profile node).
  - done.
  - by intros ->.
Qed.

(** X7: the profiling flag changes nothing but the profiling report: with
    the flag set either way a frame causes the same events otherwise, and
    ends the same way. *)
Theorem onCamera_profile_only_reports node (b : bool)
    (msg_img : Image) (msg_ci : CameraInfo A) :
  without_profile (onCamera (set_profile b node) msg_img msg_ci).1
  = without_profile (onCamera node msg_img msg_ci).1
  /\ (onCamera (set_profile b node) msg_img msg_ci).2
     = (onCamera node msg_img msg_ci).2.
Proof.
  unfold onCamera. cbn [set_profile enabled td profile].
  destruct (enabled node); cbn [negb]; [|done].
  destruct (toCvShare_mono8 msg_img); [|done].
  change (survives (set_profile b node)) with (survives node).
  split; [|done].
  by destruct b, (profile node).
Qed.

(** X8: the two batches of a frame are aligned: the transform at an index
    belongs to the detection record at that index, and its child frame is
    the name configured for the record's ID, or the family name, a colon
    and the ID in decimal when none is configured.  When names are
    configured at all, every child frame is a configured name. *)
Theorem onCamera_child_frames node (msg_img : Image) (msg_ci : CameraInfo A) :
  forall i d t,
    emitted_detections (onCamera node msg_img msg_ci).1 !! i = Some d ->
    emitted_transforms (onCamera node msg_img msg_ci).1 !! i = Some t ->
    child_frame_id t = frame_name node d
    /\ (tag_frames node <> ∅ ->
        tag_frames node !! msg_id d = Some (child_frame_id t)).
Proof.
  intros i d t Hd Ht.
  destruct (emitted_cases node msg_img msg_ci) as [(im & He & Him)|Hnil].
  - destruct (emitted_processed node msg_img msg_ci im He Him) as [Hm Htf].
    rewrite Hm in Hd. rewrite Htf in Ht.
    change (map ?f ?l) with (f <$> l) in Hd.
    change (map ?f ?l) with (f <$> l) in Ht.
    rewrite list_lookup_fmap in Hd. rewrite list_lookup_fmap in Ht.
    destruct (List.filter _ _ !! i) as [det|] eqn:Hdet; [|discriminate].
    injection Hd as <-. injection Ht as <-.
    split; [reflexivity|].
    intros Hne. apply list_elem_of_lookup_2, list_elem_of_In, filter_In in Hdet
      as [_ Hs].
    unfold survives in Hs. apply andb_prop in Hs as [Hid _].
    apply orb_prop in Hid as [Hemp|Hc].
    + by apply map_empty_true in Hemp.
    + unfold count in Hc. cbn.
      by destruct (tag_frames node !! det_id det).
  - rewrite Hnil in Hd. discriminate.
Qed.

(** X9: what a frame puts out carries the header of its picture: the
    published array and every transform. *)
Theorem onCamera_headers node (msg_img : Image) (msg_ci : CameraInfo A) :
  (forall msg, publish msg ∈ (onCamera node msg_img msg_ci).1 ->
     array_header msg = image_header msg_img)
  /\ (forall t, t ∈ emitted_transforms (onCamera node msg_img msg_ci).1 ->
        tf_header t = image_header msg_img).
Proof.
  destruct (emitted_cases node msg_img msg_ci) as [(im & He & Him)|Hnil].
  - split.
    + rewrite (onCamera_processed _ _ _ im He Him). cbv zeta. cbn [fst].
      intros msg Hin. rewrite !elem_of_app in Hin.
      destruct Hin as [Hin|[Hin|Hin]].
      * apply list_elem_of_singleton in Hin. discriminate.
      * destruct (profile node); [apply list_elem_of_singleton in Hin|
                                  apply elem_of_nil in Hin]; done.
      * apply elem_of_cons in Hin as [[= ->]|Hin]; [done|].
        apply list_elem_of_singleton in Hin. discriminate.
    + destruct (emitted_processed node msg_img msg_ci im He Him) as [_ ->].
      intros t Hin. by apply list_elem_of_fmap in Hin as (det & -> & _).
  - rewrite Hnil. split; intros ? Hin; by apply elem_of_nil in Hin.
Qed.

Lemma filter_sublist_impl {T : Type} (f g : T -> bool) (l : list T) :
  (forall x, f x = true -> g x = true) ->
  sublist (List.filter f l) (List.filter g l).
Proof.
  intros Himp. induction l as [|x l IH]; cbn; [constructor|].
  destruct (f x) eqn:Hf.
  - rewrite (Himp x Hf). by constructor.
  - destruct (g x); [by constructor|done].
Qed.

(** X10: raising the threshold only adds: with the same detector output,
    the records put out under a threshold are, in their order, among the
    records put out under any higher threshold. *)
Theorem onCamera_max_hamming_monotone node (k k' : Z)
    (msg_img : Image) (msg_ci : CameraInfo A) :
  (k <= k')%Z ->
  sublist
    (emitted_detections (onCamera (set_max_hamming k node) msg_img msg_ci).1)
    (emitted_detections (onCamera (set_max_hamming k' node) msg_img msg_ci).1).
Proof.
  intros Hk.
  destruct (emitted_cases (set_max_hamming k node) msg_img msg_ci)
    as [(im & He & Him)|Hnil].
  - destruct (emitted_processed _ msg_img msg_ci im He Him) as [-> _].
    destruct (emitted_processed (set_max_hamming k' node) msg_img msg_ci im He Him)
      as [-> _].
    change (map ?f ?l) with (f <$> l). apply fmap_sublist.
    cbn [set_max_hamming td].
    apply filter_sublist_impl. intros det. unfold survives.
    cbn [set_max_hamming tag_frames max_hamming].
    rewrite !andb_true_iff, !Z.leb_le. intros [? ?]. split; [done|lia].
  - rewrite Hnil. apply sublist_nil_l.
Qed.
End OnCameraMore.

(** ** The constructor *)

Section ConstructorMore.
Context {A : Type} `{Scalar A} `{External A}.

(** The outcome of the constructor, case by case. *)
Lemma AprilTagNode_new_outcome (p : StartupParameters A) :
  AprilTagNode_new p =
  if negb (empty (p_tag_frames p))
     && negb (bool_decide (length (p_tag_ids p) = length (p_tag_frames p)))
  then inl (mismatch "frames" (size_of (p_tag_ids p)) (size_of (p_tag_frames p)))
  else if negb (empty (p_tag_sizes p))
          && negb (bool_decide (length (p_tag_ids p) = length (p_tag_sizes p)))
  then inl (mismatch "sizes" (size_of (p_tag_ids p)) (size_of (p_tag_sizes p)))
  else match tag_create (p_family p) with
       | Some family => inr (constructed_node p family)
       | None => inl (runtime_error ("Unsupported tag family: " +:+ p_family p))
       end.
Proof.
  rewrite AprilTagNode_new_declared. unfold constructed_node. cbv zeta.
  rewrite !size_of_eqb.
  destruct (p_tag_frames p) as [|f frames], (p_tag_sizes p) as [|z sizes];
    cbn [empty negb andb]; rewrite ?fill_nil;
    repeat case_bool_decide; cbn [negb throws]; reflexivity.
Qed.



Lemma AprilTagNode_new_inv (p : StartupParameters A) node :
  AprilTagNode_new p = inr node ->
  exists family, tag_create (p_family p) = Some family
                 /\ node = constructed_node p family.
Proof.
  rewrite AprilTagNode_new_outcome.
  destruct (_ && _); [discriminate|]. destruct (_ && _); [discriminate|].
  destruct (tag_create (p_family p)) as [family|]; [|discriminate].
  intros [= <-]. eauto.
Qed.

Lemma fill_lookup_notin {V : Type} (ids : list Z) : forall (m : gmap Z V) vs k,
  k ∉ to_int <$> ids -> fill m ids vs !! k = m !! k.
Proof.
  induction ids as [|i ids IH]; intros m vs k Hk; [done|].
  destruct vs as [|v vs]; [done|]. cbn.
  apply not_elem_of_cons in Hk as [Hne Hk].
  rewrite IH by done. by rewrite lookup_insert_ne.
Qed.

Lemma fill_lookup {V : Type} (ids : list Z) : forall (m : gmap Z V) vs i id v,
  NoDup (to_int <$> ids) ->
  ids !! i = Some id -> vs !! i = Some v ->
  fill m ids vs !! to_int id = Some v.
Proof.
  induction ids as [|j ids IH]; intros m vs i id v Hnd Hi Hv; [done|].
  destruct vs as [|w vs]; [done|]. cbn in Hnd. apply NoDup_cons in Hnd as [Hj Hnd].
  destruct i as [|i]; cbn in *.
  - injection Hi as ->. injection Hv as ->.
    rewrite fill_lookup_notin by done. apply lookup_insert_eq.
  - by eapply IH.
Qed.

Lemma fill_dom {V : Type} (ids : list Z) : forall (m : gmap Z V) vs k,
  k ∈ dom (fill m ids vs) -> k ∈ dom m \/ k ∈ to_int <$> ids.
Proof.
  induction ids as [|i ids IH]; intros m vs k Hk; [by left|].
  destruct vs as [|v vs]; [by left|]. cbn in Hk.
  apply IH in Hk as [Hk|Hk].
  - rewrite dom_insert in Hk. apply elem_of_union in Hk as [Hk|Hk]; [|by left].
    apply elem_of_singleton in Hk as ->. right. cbn. by left.
  - right. cbn. by right.
Qed.

(** X11: the constructed node holds the configuration.  When the
    constructor yields a node and the IDs, converted to [int], are
    pairwise different, the ID at each index is mapped to the name and
    to the size at that index, and the map of names holds no other ID. *)
Theorem AprilTagNode_new_maps (p : StartupParameters A) node :
  AprilTagNode_new p = inr node ->
  NoDup (to_int <$> p_tag_ids p) ->
  (forall i id name, p_tag_ids p !! i = Some id -> p_tag_frames p !! i = Some name ->
     tag_frames node !! to_int id = Some name)
  /\ (forall i id size, p_tag_ids p !! i = Some id -> p_tag_sizes p !! i = Some size ->
        tag_sizes node !! to_int id = Some size)
  /\ (forall k, k ∈ dom (tag_frames node) -> k ∈ to_int <$> p_tag_ids p).
Proof.
  intros Hn Hnd. apply AprilTagNode_new_inv in Hn as (family & _ & ->).
  cbn. split_and!.
  - intros i id name. by apply fill_lookup.
  - intros i id size. by apply fill_lookup.
  - intros k Hk. apply fill_dom in Hk as [Hk|Hk]; [|done].
    rewrite dom_empty in Hk. by apply elem_of_empty in Hk.
Qed.


(** X13: the node starts with the declared values, and it starts switched
    off unless [enabled] is given as true: a node constructed with
    [enabled] false lets every frame pass without an event. *)
Theorem AprilTagNode_new_then_onCamera (p : StartupParameters A) node :
  AprilTagNode_new p = inr node ->
  enabled node = p_enabled p
  /\ max_hamming node = to_int (p_max_hamming p)
  /\ z_up node = p_z_up p
  /\ profile node = p_profile p
  /\ tag_edge_size node = p_size p
  /\ (p_enabled p = false ->
      forall (msg_img : Image) (msg_ci : CameraInfo A),
        onCamera node msg_img msg_ci = ([], None)).
Proof.
  intros Hn. apply AprilTagNode_new_inv in Hn as (family & _ & ->).
  split_and!; try reflexivity.
  intros He msg_img msg_ci. unfold onCamera. cbn. by rewrite He.
Qed.
End ConstructorMore.

(** ** The pose estimator in exact arithmetic, continued *)

(** Polynomial identities among the entries of a rotation are left to
    [nsatz]. *)
From Stdlib Require Import RNsatz.

Section PoseMoreR.
Local Open Scope R_scope.
Implicit Types (u v : Vector3 R) (M : Mat3 R).

(** X14: the translation is proportional to the edge size. *)
Theorem getPose_translation_scales (H0 Pinv : Mat3 R) (size k : R) (z_up : bool) :
  translation (getPose H0 Pinv (k * size) z_up)
  = vscale (translation (getPose H0 Pinv size z_up)) k.
Proof.
  unfold getPose, translation, getPose_tt. cbv zeta.
  generalize (norm (col (getPose_T H0 Pinv) 0)). intros n.
  destruct (col (getPose_T H0 Pinv) 2) as [x y z].
  unfold vscale, vdiv. cbn. unfold_R. unfold Rdiv. f_equal; ring.
Qed.

Lemma getPose_T_scale (H0 Pinv : Mat3 R) (lam : R) :
  getPose_T (scale_mat H0 lam) Pinv = scale_mat (getPose_T H0 Pinv) lam.
Proof.
  destruct H0 as [h0 h1 h2 h3 h4 h5 h6 h7 h8], Pinv as [p0 p1 p2 p3 p4 p5 p6 p7 p8].
  unfold scale_mat. unfold_vec. unfold_R. f_equal; ring.
Qed.

Lemma dot_vscale v (lam : R) : dot (vscale v lam) (vscale v lam) = lam * lam * dot v v.
Proof. destruct v. unfold_vec. unfold_R. ring. Qed.

Lemma sqrt_scaled (z lam : R) : 0 < lam -> 0 <= z -> sqrt (lam * lam * z) = lam * sqrt z.
Proof.
  intros Hl Hz. rewrite sqrt_mult; [|nra|lra].
  rewrite sqrt_square; [reflexivity|lra].
Qed.

Lemma normalized_vscale v (lam : R) :
  0 < lam -> 0 < dot v v -> normalized (vscale v lam) = normalized v.
Proof.
  intros Hl Hv.
  rewrite (normalized_pos (vscale v lam))
    by (rewrite dot_vscale; repeat apply Rmult_lt_0_compat; assumption).
  rewrite (normalized_pos v) by done.
  rewrite dot_vscale, sqrt_scaled by lra.
  pose proof (sqrt_lt_R0 _ Hv) as Hs. generalize dependent (sqrt (dot v v)).
  intros s Hs. destruct v. unfold vdiv, vscale. cbn. unfold_R.
  f_equal; field; lra.
Qed.

Lemma norm_vscale v (lam : R) : 0 < lam -> norm (vscale v lam) = lam * norm v.
Proof.
  intros Hl. unfold norm, squaredNorm. rewrite dot_vscale.
  unfold_R. apply sqrt_scaled; [done|]. destruct v. unfold_vec. unfold_R. nra.
Qed.

(** X15: a homography is taken up to a positive factor: for a homography
    and a [Pinv] with determinants, multiplying the homography by a
    positive number changes neither the translation nor the rotation that
    [getPose] returns. *)
Theorem getPose_homography_scale (H0 Pinv : Mat3 R) (size lam : R) (z_up : bool) :
  0 < lam -> determinant H0 <> 0 -> determinant Pinv <> 0 ->
  getPose (scale_mat H0 lam) Pinv size z_up = getPose H0 Pinv size z_up.
Proof.
  intros Hl HH HP.
  assert (determinant (getPose_T H0 Pinv) <> 0) as HT.
  { unfold getPose_T. rewrite determinant_mat_mul. nra. }
  destruct (determinant_cols_pos _ HT) as [H0p H1p].
  unfold getPose, getPose_R, getPose_tt. cbv zeta.
  rewrite getPose_T_scale.
  set (T := getPose_T H0 Pinv) in *.
  assert (forall j, col (scale_mat T lam) j = vscale (col T j) lam) as Hc.
  { intros [|[|j]]; reflexivity. }
  rewrite !Hc, !normalized_vscale, norm_vscale by done.
  f_equal.
  pose proof (sqrt_lt_R0 _ H0p) as Hn.
  change (sqrt (dot (col T 0) (col T 0))) with (norm (col T 0)) in Hn.
  generalize dependent (norm (col T 0)). intros n Hn.
  destruct (col T 2). unfold vscale, vdiv. cbn. unfold_R.
  f_equal; field; repeat split; nra.
Qed.

(** X16: [Pinv] is the inverse of the left block of the projection
    matrix: when that block has a determinant, its products with [Pinv]
    on both sides are the identity. *)
Theorem onCamera_Pinv_inverse (p : list R) :
  let K := leftCols3 p in
  determinant K <> 0 ->
  mat_mul (inverse K) K = identity3_R /\ mat_mul K (inverse K) = identity3_R.
Proof.
  intros K. generalize K. clear K p. intros [a b c d e f g h i] Hd.
  revert Hd. unfold identity3_R, inverse. cbv zeta.
  unfold_vec.
  cbv [cofactor01 cofactor11 cofactor21 cofactor02 cofactor12 cofactor22
       m00 m01 m02 m10 m11 m12 m20 m21 m22].
  unfold_R. intros Hd. split; f_equal; field; exact Hd.
Qed.


Lemma cross_vscale_r u v (s : R) : vscale (cross u v) s = cross u (vscale v s).
Proof. destruct u, v. unfold_vec. unfold_R. f_equal; ring. Qed.


Lemma quat_radicand (r X Y Z : R) :
  0 < r -> X * X + Y * Y + Z * Z = r * (4 - r) ->
  1 / 2 * sqrt r * (1 / 2 * sqrt r)
  + X * (1 / 2 / sqrt r) * (X * (1 / 2 / sqrt r))
  + Y * (1 / 2 / sqrt r) * (Y * (1 / 2 / sqrt r))
  + Z * (1 / 2 / sqrt r) * (Z * (1 / 2 / sqrt r)) = 1.
Proof.
  intros Hr Hs. pose proof (sqrt_lt_R0 _ Hr) as Hp.
  pose proof (sqrt_sqrt r (Rlt_le _ _ Hr)) as Hq.
  generalize dependent (sqrt r). intros s Hp Hq.
  assert (X * X + Y * Y + Z * Z = s * s * (4 - s * s)) as Hs' by by rewrite Hq.
  clear Hs Hq Hr. field_simplify_eq; [|lra]. nra.
Qed.

(** The quaternion of a matrix with two orthogonal unit columns and their
    cross product has the norm 1, on all four branches of the
    conversion. *)
Lemma Quaternion_of_matrix_unit u v :
  dot u u = 1 -> dot v v = 1 -> dot u v = 0 ->
  quat_squaredNorm (Quaternion_of_matrix (of_cols u v (cross u v))) = 1.
Proof.
  destruct u as [a b c], v as [d e f]. unfold quat_squaredNorm, Quaternion_of_matrix.
  cbv [trace of_cols cross dot sum3 vx vy vz
       m00 m01 m02 m10 m11 m12 m20 m21 m22].
  unfold_R. intros U V O.
  destruct (Rlt_dec 0 (a + (e + (a * e - b * d)))) as [Ht|Ht].
  { cbv [qw qx qy qz].
    etrans; [|apply (quat_radicand (a + (e + (a * e - b * d)) + 1)
                  (f - (c * d - a * f)) (b * f - c * e - c) (b - d))];
        [unfold Rdiv; ring | lra | nsatz]. }
  destruct (Rlt_dec a e) as [Hae|Hae].
  - destruct (Rlt_dec e (a * e - b * d)) as [H2|H2]; cbv [qw qx qy qz].
    + etrans; [|apply (quat_radicand (a * e - b * d - a - e + 1)
                    (b - d) (b * f - c * e + c) (c * d - a * f + f))];
        [unfold Rdiv; ring | lra | nsatz].
    + etrans; [|apply (quat_radicand (e - (a * e - b * d) - a + 1)
                    (b * f - c * e - c) (d + b) (f + (c * d - a * f)))];
        [unfold Rdiv; ring | lra | nsatz].
  - destruct (Rlt_dec a (a * e - b * d)) as [H2|H2]; cbv [qw qx qy qz].
    + etrans; [|apply (quat_radicand (a * e - b * d - a - e + 1)
                    (b - d) (b * f - c * e + c) (c * d - a * f + f))];
        [unfold Rdiv; ring | lra | nsatz].
    + etrans; [|apply (quat_radicand (a - e - (a * e - b * d) + 1)
                    (f - (c * d - a * f)) (b + d) (c + (b * f - c * e)))];
        [unfold Rdiv; ring | lra | nsatz].
Qed.

(** X18: for a homography and a [Pinv] with determinants such that the
    first two columns of [T = Pinv * H] are orthogonal, the rotation that
    [getPose] returns is a unit quaternion, with [z_up] set or not. *)
Theorem getPose_unit_quaternion (H0 Pinv : Mat3 R) (size : R) (z_up : bool) :
  determinant H0 <> 0 -> determinant Pinv <> 0 ->
  dot (col (getPose_T H0 Pinv) 0) (col (getPose_T H0 Pinv) 1) = 0 ->
  quat_squaredNorm (rotation (getPose H0 Pinv size z_up)) = 1.
Proof.
  intros HH HP HO.
  assert (determinant (getPose_T H0 Pinv) <> 0) as HT.
  { unfold getPose_T. rewrite determinant_mat_mul. nra. }
  destruct (determinant_cols_pos _ HT) as [H0p H1p].
  pose proof (dot_normalized_self _ H0p) as U0.
  pose proof (dot_normalized_self _ H1p) as U1.
  pose proof (dot_normalized _ _ H0p H1p) as O. rewrite HO in O.
  unfold Rdiv in O. rewrite Rmult_0_l in O.
  unfold getPose, rotation, getPose_R. cbv zeta.
  set (c0 := normalized (col (getPose_T H0 Pinv) 0)) in *.
  set (c1 := normalized (col (getPose_T H0 Pinv) 1)) in *.
  destruct z_up; [|by apply Quaternion_of_matrix_unit].
  change (- sone)%S with (-1). rewrite cross_vscale_r.
  apply Quaternion_of_matrix_unit; [done| |].
  - rewrite dot_vscale. lra.
  - clearbody c0 c1. destruct c0, c1. revert O. unfold_vec. unfold_R.
    intros O. nra.
Qed.
End PoseMoreR.

(** ** A singular calibration on binary64 numbers *)

Lemma mul_infinity_not_finite (x y : float) :
  y = infinity \/ y = neg_infinity -> PrimFloat.is_finite (x * y) = false.
Proof.
  intros Hy.
  assert (Prim2SF (x * y) = S754_nan \/ exists s, Prim2SF (x * y) = S754_infinity s)
    as Hc.
  { rewrite FloatAxioms.mul_spec. unfold SF64mul, SFmul.
    destruct Hy as [-> | ->].
    - change (Prim2SF infinity) with (S754_infinity false).
      destruct (Prim2SF x); eauto.
    - change (Prim2SF neg_infinity) with (S754_infinity true).
      destruct (Prim2SF x); eauto. }
  rewrite <- (SF2Prim_Prim2SF (x * y)).
  destruct Hc as [-> | [[] ->]]; reflexivity.
Qed.

Lemma one_over_zero (x : float) :
  PrimFloat.is_zero x = true -> (1 / x = infinity \/ 1 / x = neg_infinity)%float.
Proof. intros Hx. destruct (is_zero_cases x Hx) as [-> | ->]; auto. Qed.

(** X19: a singular calibration is not refused.  When the determinant
    that [inverse] computes for the left block of the projection matrix
    is zero, [Pinv] is computed all the same and none of its nine entries
    is a finite number. *)
Theorem onCamera_Pinv_singular (p : list float) :
  PrimFloat.is_zero (determinant (leftCols3 p)) = true ->
  Forall (fun x => PrimFloat.is_finite x = false) (data (inverse (leftCols3 p))).
Proof.
  intros Hd. apply one_over_zero in Hd.
  unfold inverse, data. cbv zeta. cbn [m00 m01 m02 m10 m11 m12 m20 m21 m22].
  repeat constructor; by apply mul_infinity_not_finite.
Qed.

(** X19 on a projection matrix without a focal length in y. *)
Lemma onCamera_Pinv_singular_witness :
  Forall (fun x => PrimFloat.is_finite x = false)
         (data (inverse (leftCols3 singular_p))).
Proof. exact (onCamera_Pinv_singular singular_p eq_refl). Defined.

(** ** The further properties on the bench *)

(** X5 on the bench: switched off by a batch, the node lets the picture
    pass. *)
Lemma onParameter_then_onCamera_witness :
  onCamera (onParameter (bench_node true) [bench_switch false]).1
           bench_image bench_camera_info = ([], None).
Proof.
  exact (proj1 (onParameter_then_onCamera (bench_node true) [bench_switch false]
                  bench_image bench_camera_info ltac:(repeat constructor))
           (bench_switch false) eq_refl eq_refl).
Defined.

(** X6 on the bench. *)
Lemma onCamera_processed_events_witness :
  map is_detect (without_profile
    (onCamera (bench_node true) bench_image bench_camera_info).1)
  = [true; false; false].
Proof.
  destruct (onCamera_processed_events (bench_node true) bench_image
              bench_camera_info (snd bench_image) eq_refl eq_refl) as (-> & _).
  reflexivity.
Defined.

(** X8 on the bench: the second transform belongs to the record of ID 3
    and is named door. *)
Lemma onCamera_child_frames_witness :
  tag_frames (bench_node true) !! 3%Z = Some "door".
Proof.
  exact (proj2 (onCamera_child_frames (bench_node true) bench_image
                  bench_camera_info 1%nat
                  (make_msg_detection (bench_detection 3 0))
                  (make_tf (bench_node true) (fst bench_image)
                     (inverse (leftCols3 (ci_p bench_camera_info)))
                     (bench_detection 3 0))
                  eq_refl eq_refl)
           ltac:(intros Hm; apply (f_equal (fun m => m !! 3%Z)) in Hm; discriminate)).
Defined.

(** X10 on the bench: the thresholds 0 and 1. *)
Lemma onCamera_max_hamming_monotone_witness :
  sublist
    (emitted_detections
       (onCamera (set_max_hamming 0 (bench_node true)) bench_image
          bench_camera_info).1)
    (emitted_detections
       (onCamera (set_max_hamming 1 (bench_node true)) bench_image
          bench_camera_info).1).
Proof.
  apply (onCamera_max_hamming_monotone (bench_node true) 0 1). lia.
Defined.

(** X11 on the bench: the ID 7 is named dock and has the size 0.5. *)
Lemma AprilTagNode_new_maps_witness :
  tag_frames (bench_node true) !! to_int 7 = Some "dock"
  /\ tag_sizes (bench_node true) !! to_int 7 = Some 0.5%float.
Proof.
  destruct (AprilTagNode_new_maps
              (bench_startup [3; 7]%Z ["door"; "dock"] [2; 0.5]%float true)
              (bench_node true) (AprilTagNode_new_bench true)) as (Hf & Hs & _).
  - cbn. apply NoDup_cons_2; [|apply NoDup_singleton].
    intros Hin%list_elem_of_singleton. discriminate.
  - split.
    + exact (Hf 1%nat 7%Z "dock" eq_refl eq_refl).
    + exact (Hs 1%nat 7%Z 0.5%float eq_refl eq_refl).
Defined.

(** X13 on the bench: constructed switched off, the node lets the picture
    pass. *)
Lemma AprilTagNode_new_then_onCamera_witness :
  onCamera (bench_node false) bench_image bench_camera_info = ([], None).
Proof.
  destruct (AprilTagNode_new_then_onCamera
              (bench_startup [3; 7]%Z ["door"; "dock"] [2; 0.5]%float false)
              (bench_node false) (AprilTagNode_new_bench false))
    as (_ & _ & _ & _ & _ & Hoff).
  exact (Hoff eq_refl bench_image bench_camera_info).
Defined.

Lemma determinant_shear3_R : determinant shear3_R <> 0%R.
Proof. unfold shear3_R. unfold_vec. unfold_R. lra. Qed.

Lemma determinant_identity3_R : determinant identity3_R <> 0%R.
Proof. unfold identity3_R. unfold_vec. unfold_R. lra. Qed.

Lemma determinant_camera_p_R : determinant (leftCols3 camera_p_R) <> 0%R.
Proof. unfold camera_p_R, leftCols3. cbn. unfold_vec. unfold_R. lra. Qed.

(** X15 on the shear, doubled. *)
Lemma getPose_homography_scale_witness :
  getPose (scale_mat shear3_R 2%R) identity3_R 1%R true
  = getPose shear3_R identity3_R 1%R true.
Proof.
  apply (getPose_homography_scale shear3_R identity3_R 1%R 2%R true).
  - lra.
  - exact determinant_shear3_R.
  - exact determinant_identity3_R.
Defined.

(** X16 on a camera with the focal length 2. *)
Lemma onCamera_Pinv_inverse_witness :
  mat_mul (inverse (leftCols3 camera_p_R)) (leftCols3 camera_p_R) = identity3_R
  /\ mat_mul (leftCols3 camera_p_R) (inverse (leftCols3 camera_p_R)) = identity3_R.
Proof.
  exact (onCamera_Pinv_inverse camera_p_R determinant_camera_p_R).
Defined.


(** X18 on that camera's left block taken as a homography. *)
Lemma getPose_unit_quaternion_witness :
  quat_squaredNorm
    (rotation (getPose (leftCols3 camera_p_R) identity3_R 1%R true)) = 1%R.
Proof.
  apply (getPose_unit_quaternion (leftCols3 camera_p_R) identity3_R 1%R true).
  - exact determinant_camera_p_R.
  - exact determinant_identity3_R.
  - unfold camera_p_R, identity3_R, leftCols3. cbn. unfold_vec. unfold_R. lra.
Defined.

(** ** Degenerate homographies *)

Section Checked.
Local Open Scope R_scope.

Lemma sqrt_checked (r : R) :
  0 <= r -> ssqrt (Some r) = Some (sqrt r).
Proof.
  intros Hr. cbn. destruct (Rlt_dec r 0); [lra|reflexivity].
Qed.

Lemma div_checked (a b : R) :
  b <> 0 -> (Some a / Some b)%S = Some (a / b).
Proof.
  intros Hb. cbn. destruct (Req_dec_T b 0); [done|reflexivity].
Qed.

Lemma div_checked_zero (a b : R) : b = 0 -> (Some a / Some b)%S = None.
Proof.
  intros Hb. cbn. destruct (Req_dec_T b 0); [reflexivity|done].
Qed.

Lemma mat_mul_checked (L N : Mat3 R) :
  mat_mul (some_mat L) (some_mat N) = some_mat (mat_mul L N).
Proof. reflexivity. Qed.

Lemma col_checked (M : Mat3 R) (j : nat) :
  col (some_mat M) j = some_vec (col M j).
Proof. by destruct j as [|[|j]]. Qed.

Lemma normalized_checked (v : Vector3 R) :
  normalized (some_vec v) = some_vec (normalized v).
Proof.
  unfold normalized. cbv zeta.
  change (squaredNorm (some_vec v)) with (Some (squaredNorm v)).
  change (Some (squaredNorm v) >? szero)%S with (squaredNorm v >? szero)%S.
  destruct (squaredNorm v >? szero)%S eqn:Hz; [|reflexivity].
  assert (0 < squaredNorm v) as Hp.
  { revert Hz. unfold_R. by destruct (Rlt_dec 0 (squaredNorm v)). }
  rewrite sqrt_checked by lra.
  unfold vdiv, some_vec. cbv [vx vy vz].
  pose proof (sqrt_lt_R0 _ Hp).
  by rewrite !div_checked by lra.
Qed.

Lemma cross_checked (u v : Vector3 R) :
  cross (some_vec u) (some_vec v) = some_vec (cross u v).
Proof. reflexivity. Qed.

Lemma getPose_R_checked (H0 Pinv : Mat3 R) (z_up : bool) :
  getPose_R (some_mat H0) (some_mat Pinv) z_up = some_mat (getPose_R H0 Pinv z_up).
Proof.
  unfold getPose_R, getPose_T. cbv zeta.
  rewrite mat_mul_checked, !col_checked, !normalized_checked, cross_checked.
  by destruct z_up.
Qed.

(** Eigen's conversion divides by the square root of a number that is at
    least 1 on each of its branches: it is defined on every matrix. *)
Lemma Quaternion_of_matrix_checked (M : Mat3 R) :
  Quaternion_of_matrix (some_mat M) = some_quat (Quaternion_of_matrix M).
Proof.
  destruct M as [a b c d e f g h i].
  unfold Quaternion_of_matrix, some_mat, some_quat, trace, sum3.
  cbv [m00 m01 m02 m10 m11 m12 m20 m21 m22]. unfold_checked.
  assert (forall r x, 0 < r ->
            match (if Rlt_dec r 0 then None else Some (sqrt r)) with
            | Some s => if Req_dec_T s 0 then None else Some (x / s)
            | None => None
            end = Some (x / sqrt r)) as Hd.
  { intros r x Hr. pose proof (sqrt_lt_R0 _ Hr).
    destruct (Rlt_dec r 0); [lra|]. destruct (Req_dec_T (sqrt r) 0); [lra|done]. }
  assert (forall r, 0 < r ->
            (if Rlt_dec r 0 then None else Some (sqrt r)) = Some (sqrt r)) as Hq.
  { intros r Hr. destruct (Rlt_dec r 0); [lra|done]. }
  destruct (Rlt_dec 0 (a + (e + i))) as [Ht|Ht].
  { rewrite Hd, Hq by lra. reflexivity. }
  destruct (Rlt_dec a e) as [Hae|Hae].
  - destruct (Rlt_dec e i) as [Hei|Hei]; rewrite Hd, Hq by lra; reflexivity.
  - destruct (Rlt_dec a i) as [Hai|Hai]; rewrite Hd, Hq by lra; reflexivity.
Qed.

(** The rotation of [getPose] is defined on every input. *)
Lemma getPose_rotation_checked (H0 Pinv : Mat3 R) (size : R) (z_up : bool) :
  rotation (getPose (some_mat H0) (some_mat Pinv) (Some size) z_up)
  = some_quat (rotation (getPose H0 Pinv size z_up)).
Proof.
  unfold getPose, rotation.
  by rewrite getPose_R_checked, Quaternion_of_matrix_checked.
Qed.

(** The translation is defined when the first column of [T] is not zero. *)
Lemma getPose_translation_checked (H0 Pinv : Mat3 R) (size : R) (z_up : bool) :
  0 < dot (col (getPose_T H0 Pinv) 0) (col (getPose_T H0 Pinv) 0) ->
  translation (getPose (some_mat H0) (some_mat Pinv) (Some size) z_up)
  = some_vec (translation (getPose H0 Pinv size z_up)).
Proof.
  intros Hp. unfold getPose, translation, getPose_tt, getPose_T. cbv zeta.
  rewrite mat_mul_checked, !col_checked. fold (getPose_T H0 Pinv) in *.
  set (c0 := col (getPose_T H0 Pinv) 0) in *.
  set (c2 := col (getPose_T H0 Pinv) 2).
  unfold norm. change (squaredNorm (some_vec c0)) with (Some (dot c0 c0)).
  change (squaredNorm c0) with (dot c0 c0).
  rewrite sqrt_checked by lra.
  pose proof (sqrt_lt_R0 _ Hp) as Hs.
  change (Some (sqrt (dot c0 c0)) + Some (sqrt (dot c0 c0)))%S
    with (Some (sqrt (dot c0 c0) + sqrt (dot c0 c0))).
  change (@stwo (option R) _) with (Some 2).
  rewrite !div_checked by lra.
  unfold vdiv, vscale, some_vec. cbv [vx vy vz].
  rewrite !div_checked by (unfold Rdiv; lra).
  reflexivity.
Qed.

(** It is undefined in all three coefficients when the first column of
    [T] is zero. *)
Lemma getPose_translation_undefined (H0 Pinv : Mat3 R) (size : R) (z_up : bool) :
  dot (col (getPose_T H0 Pinv) 0) (col (getPose_T H0 Pinv) 0) = 0 ->
  translation (getPose (some_mat H0) (some_mat Pinv) (Some size) z_up)
  = vec3 None None None.
Proof.
  intros Hp. unfold getPose, translation, getPose_tt, getPose_T. cbv zeta.
  rewrite mat_mul_checked, !col_checked. fold (getPose_T H0 Pinv) in *.
  set (c0 := col (getPose_T H0 Pinv) 0) in *.
  set (c2 := col (getPose_T H0 Pinv) 2).
  unfold norm. change (squaredNorm (some_vec c0)) with (Some (dot c0 c0)).
  rewrite sqrt_checked by lra. rewrite Hp, sqrt_0.
  change (Some 0 + Some 0)%S with (Some (0 + 0)).
  change (@stwo (option R) _) with (Some 2).
  rewrite !div_checked by lra.
  unfold vdiv, vscale, some_vec. cbv [vx vy vz].
  rewrite !div_checked_zero by (unfold Rdiv; lra).
  reflexivity.
Qed.
End Checked.

(** The quaternion of a matrix of zeros, whatever their signs. *)
Lemma getPose_rotation_zero_columns (H0 Pinv : Mat3 float) (size : float) (z_up : bool) :
  let T := getPose_T H0 Pinv in
  PrimFloat.is_zero (m00 T) = true -> PrimFloat.is_zero (m10 T) = true ->
  PrimFloat.is_zero (m20 T) = true -> PrimFloat.is_zero (m01 T) = true ->
  PrimFloat.is_zero (m11 T) = true -> PrimFloat.is_zero (m21 T) = true ->
  let q := rotation (getPose H0 Pinv size z_up) in
  qx q = 0.5%float
  /\ PrimFloat.is_zero (qw q) = true /\ PrimFloat.is_zero (qy q) = true
  /\ PrimFloat.is_zero (qz q) = true.
Proof.
  unfold getPose, rotation, getPose_R. cbv zeta.
  generalize (getPose_T H0 Pinv). intros [a b c d e f g h i].
  cbv [m00 m01 m02 m10 m11 m12 m20 m21 m22 col].
  intros Ha Hd Hg Hb He Hh.
  destruct (is_zero_cases a Ha) as [-> | ->], (is_zero_cases d Hd) as [-> | ->],
    (is_zero_cases g Hg) as [-> | ->], (is_zero_cases b Hb) as [-> | ->],
    (is_zero_cases e He) as [-> | ->], (is_zero_cases h Hh) as [-> | ->];
    destruct z_up; vm_compute; auto.
Qed.

Section DegenerateR.
Local Open Scope R_scope.

Lemma dot_pos_nonzero (v : Vector3 R) : v <> vec3 0 0 0 -> 0 < dot v v.
Proof.
  destruct v as [a b c]. intros Hv.
  destruct (Req_dec a 0) as [->|Ha], (Req_dec b 0) as [->|Hb],
    (Req_dec c 0) as [->|Hc]; try done; unfold_vec; unfold_R; nra.
Qed.

(** The average of the norms of two zero columns is zero as well: the
    translation of the specification is as undefined as that of the
    code. *)
Lemma translation_spec_undefined (H0 Pinv : Mat3 R) (size : R) :
  col (getPose_T H0 Pinv) 0 = vec3 0 0 0 ->
  col (getPose_T H0 Pinv) 1 = vec3 0 0 0 ->
  translation_spec (some_mat H0) (some_mat Pinv) (Some size) = vec3 None None None.
Proof.
  intros Hc0 Hc1. unfold translation_spec, getPose_T. cbv zeta.
  rewrite mat_mul_checked, !col_checked. fold (getPose_T H0 Pinv).
  rewrite Hc0, Hc1. unfold norm.
  change (squaredNorm (some_vec (vec3 0 0 0))) with (Some (0 * 0 + (0 * 0 + 0 * 0))).
  replace (0 * 0 + (0 * 0 + 0 * 0)) with 0 by ring.
  rewrite sqrt_checked by lra. rewrite sqrt_0.
  change (Some 0 + Some 0)%S with (Some (0 + 0)).
  change (@stwo (option R) _) with (Some 2).
  rewrite !div_checked by lra.
  unfold vdiv, vscale, some_vec. cbv [vx vy vz].
  rewrite !div_checked_zero by (unfold Rdiv; lra).
  reflexivity.
Qed.
End DegenerateR.

(** A zero over the average of the norms of two zero columns, scaled:
    NaN. *)
Lemma zero_over_zero_norms (a b c d e f x s : float) :
  PrimFloat.is_zero a = true -> PrimFloat.is_zero b = true ->
  PrimFloat.is_zero c = true -> PrimFloat.is_zero d = true ->
  PrimFloat.is_zero e = true -> PrimFloat.is_zero f = true ->
  PrimFloat.is_zero x = true ->
  (x / ((PrimFloat.sqrt (a * a + (b * b + c * c))
         + PrimFloat.sqrt (d * d + (e * e + f * f))) / 2)
   * s)%float = nan.
Proof.
  intros Ha Hb Hc Hd He Hf Hx.
  destruct (is_zero_cases a Ha) as [-> | ->], (is_zero_cases b Hb) as [-> | ->],
    (is_zero_cases c Hc) as [-> | ->], (is_zero_cases d Hd) as [-> | ->],
    (is_zero_cases e He) as [-> | ->], (is_zero_cases f Hf) as [-> | ->],
    (is_zero_cases x Hx) as [-> | ->];
    apply nan_mul_l.
Qed.

Lemma is_zero_not_nan (x : float) :
  PrimFloat.is_zero x = true -> PrimFloat.is_nan x = false.
Proof. intros Hx. by destruct (is_zero_cases x Hx) as [-> | ->]. Qed.

(** C3 (amended): [getPose] checks nothing and returns a transform for
    every input.  In exact arithmetic the rotation is defined on every
    input, degenerate or not: no quotient by zero and no square root of a
    negative number is met; and so is the translation whenever the first
    column of [T = Pinv * H] is not zero, the second being zero or not.
    When the first two columns of [T] are both zero the translation is a
    quotient by zero, by the formula of the code and by the formula of the
    specification alike: undefined in exact arithmetic, and on binary64
    numbers NaN in each coefficient whose entry in the third column of [T]
    is zero, while the rotation is the quaternion (0, 0.5, 0, 0) up to the
    signs of the zeros, without a NaN. *)
Theorem C3_getPose_degenerate :
  (forall (H0 Pinv : Mat3 R) (size : R) (z_up : bool),
     rotation (getPose (some_mat H0) (some_mat Pinv) (Some size) z_up)
     = some_quat (rotation (getPose H0 Pinv size z_up)))
  /\ (forall (H0 Pinv : Mat3 R) (size : R) (z_up : bool),
        col (getPose_T H0 Pinv) 0 <> vec3 0 0 0 ->
        translation (getPose (some_mat H0) (some_mat Pinv) (Some size) z_up)
        = some_vec (translation (getPose H0 Pinv size z_up)))%R
  /\ (forall (H0 Pinv : Mat3 R) (size : R) (z_up : bool),
        col (getPose_T H0 Pinv) 0 = vec3 0 0 0 ->
        col (getPose_T H0 Pinv) 1 = vec3 0 0 0 ->
        translation (getPose (some_mat H0) (some_mat Pinv) (Some size) z_up)
        = vec3 None None None
        /\ translation_spec (some_mat H0) (some_mat Pinv) (Some size)
           = vec3 None None None)%R
  /\ (forall (H0 Pinv : Mat3 float) (size : float) (z_up : bool),
        let T := getPose_T H0 Pinv in
        PrimFloat.is_zero (m00 T) = true -> PrimFloat.is_zero (m10 T) = true ->
        PrimFloat.is_zero (m20 T) = true -> PrimFloat.is_zero (m01 T) = true ->
        PrimFloat.is_zero (m11 T) = true -> PrimFloat.is_zero (m21 T) = true ->
        quat_has_nan (rotation (getPose H0 Pinv size z_up)) = false
        /\ qx (rotation (getPose H0 Pinv size z_up)) = 0.5%float
        /\ (PrimFloat.is_zero (m02 T) = true ->
            vx (translation (getPose H0 Pinv size z_up)) = nan
            /\ vx (translation_spec H0 Pinv size) = nan)
        /\ (PrimFloat.is_zero (m12 T) = true ->
            vy (translation (getPose H0 Pinv size z_up)) = nan
            /\ vy (translation_spec H0 Pinv size) = nan)
        /\ (PrimFloat.is_zero (m22 T) = true ->
            vz (translation (getPose H0 Pinv size z_up)) = nan
            /\ vz (translation_spec H0 Pinv size) = nan)).
Proof.
  split_and!.
  - apply getPose_rotation_checked.
  - intros H0 Pinv size z_up Hc.
    apply getPose_translation_checked. by apply dot_pos_nonzero.
  - intros H0 Pinv size z_up Hc0 Hc1. split.
    + apply getPose_translation_undefined. rewrite Hc0.
      unfold_vec. unfold_R. ring.
    + by apply translation_spec_undefined.
  - intros H0 Pinv size z_up T Ha Hd Hg Hb He Hh.
    destruct (getPose_rotation_zero_columns H0 Pinv size z_up Ha Hd Hg Hb He Hh)
      as (Hx & Hw & Hy & Hz).
    split_and!.
    + unfold quat_has_nan.
      rewrite (is_zero_not_nan _ Hw), (is_zero_not_nan _ Hy), (is_zero_not_nan _ Hz).
      by rewrite Hx.
    + exact Hx.
    + intros Hc. split.
      * exact (zero_over_zero_norm _ _ _ _ _ Ha Hd Hg Hc).
      * exact (zero_over_zero_norms _ _ _ _ _ _ _ _ Ha Hd Hg Hb He Hh Hc).
    + intros Hc. split.
      * exact (zero_over_zero_norm _ _ _ _ _ Ha Hd Hg Hc).
      * exact (zero_over_zero_norms _ _ _ _ _ _ _ _ Ha Hd Hg Hb He Hh Hc).
    + intros Hc. split.
      * exact (zero_over_zero_norm _ _ _ _ _ Ha Hd Hg Hc).
      * exact (zero_over_zero_norms _ _ _ _ _ _ _ _ Ha Hd Hg Hb He Hh Hc).
Qed.

(** C3 on the zero homography: the quaternion has no NaN, the
    translation is NaN throughout.  And on [flat3], with a zero second
    column only, replayed on binary64 numbers: no NaN in the rotation nor
    in the translation. *)
Lemma C3_getPose_degenerate_witness :
  (quat_has_nan (rotation (getPose zero3 identity3 1%float true)) = false
   /\ vx (translation (getPose zero3 identity3 1%float true)) = nan
   /\ vy (translation (getPose zero3 identity3 1%float true)) = nan
   /\ vz (translation (getPose zero3 identity3 1%float true)) = nan)
  /\ (col (getPose_T flat3 identity3) 1 = (vec3 0 0 0)%float
      /\ quat_has_nan (rotation (getPose flat3 identity3 1%float true)) = false
      /\ has_nan (translation (getPose flat3 identity3 1%float true)) = false).
Proof.
  destruct C3_getPose_degenerate as (_ & _ & _ & Hf).
  destruct (Hf zero3 identity3 1%float true
              eq_refl eq_refl eq_refl eq_refl eq_refl eq_refl)
    as (Hn & _ & Hx & Hy & Hz).
  split; [|repeat split].
  exact (conj Hn (conj (proj1 (Hx eq_refl))
                   (conj (proj1 (Hy eq_refl)) (proj1 (Hz eq_refl))))).
Defined.

(** C3, as stated, fails: for the zero homography the first two columns
    of [T] are zero and the translation that [getPose] returns is NaN in
    all three coefficients. *)
Lemma C3_counterexample :
  col (getPose_T zero3 identity3) 0 = (vec3 0 0 0)%float
  /\ col (getPose_T zero3 identity3) 1 = (vec3 0 0 0)%float
  /\ translation (getPose zero3 identity3 1%float true) = vec3 nan nan nan
  /\ has_nan (translation (getPose zero3 identity3 1%float true)) = true.
Proof. repeat split. Qed.

(** ** The tag frame with and without [z_up] *)

Section QuaternionsR.
Local Open Scope R_scope.

Ltac sqrt_as_root :=
  match goal with
  | |- context [sqrt ?r] =>
      let Hr := fresh "Hr" in
      let s := fresh "s" in
      let Hp := fresh "Hp" in
      let Hq := fresh "Hq" in
      assert (0 < r) as Hr by lra;
      pose proof (sqrt_lt_R0 _ Hr) as Hp;
      pose proof (sqrt_sqrt r (Rlt_le _ _ Hr)) as Hq;
      generalize dependent (sqrt r); intros s Hp Hq
  end.

Ltac entry := field_simplify_eq; [|lra]; cbn [pow]; nsatz.

Lemma Quaternion_of_matrix_round_trip u v :
  dot u u = 1 -> dot v v = 1 -> dot u v = 0 ->
  toRotationMatrix (Quaternion_of_matrix (of_cols u v (cross u v)))
  = of_cols u v (cross u v).
Proof.
  destruct u as [a b c], v as [d e f]. unfold toRotationMatrix, Quaternion_of_matrix.
  cbv [trace of_cols cross dot sum3 vx vy vz
       m00 m01 m02 m10 m11 m12 m20 m21 m22].
  unfold_R. intros U V O.
  destruct (Rlt_dec 0 (a + (e + (a * e - b * d)))) as [Ht|Ht].
  { cbv [qw qx qy qz]. sqrt_as_root. f_equal; entry. }
  destruct (Rlt_dec a e) as [Hae|Hae].
  - destruct (Rlt_dec e (a * e - b * d)) as [H2|H2]; cbv [qw qx qy qz];
      sqrt_as_root; f_equal; entry.
  - destruct (Rlt_dec a (a * e - b * d)) as [H2|H2]; cbv [qw qx qy qz];
      sqrt_as_root; f_equal; entry.
Qed.

Lemma square_cases (a a' : R) : a' * a' = a * a -> a' = a \/ a' = - a.
Proof.
  intros Hs. assert ((a' - a) * (a' + a) = 0) as Hm by (ring_simplify; lra).
  destruct (Rmult_integral _ _ Hm); [left|right]; lra.
Qed.

Lemma pivot_same (a b a' b' : R) :
  a <> 0 -> a' = a -> a' * b' = a * b -> b' = b.
Proof. intros Ha -> Hm. by apply (Rmult_eq_reg_l a). Qed.

Lemma pivot_opposite (a b a' b' : R) :
  a <> 0 -> a' = - a -> a' * b' = a * b -> b' = - b.
Proof. intros Ha -> Hm. apply (Rmult_eq_reg_l a); [lra|done]. Qed.

Lemma square_zero (a a' : R) : a = 0 -> a' * a' = a * a -> a' = 0.
Proof. intros -> Hs. nra. Qed.

(** Two unit quaternions that stand for the same rotation matrix are
    equal or opposite. *)
Lemma unit_quaternion_unique (p q : Quaternion R) :
  quat_squaredNorm p = 1 -> quat_squaredNorm q = 1 ->
  toRotationMatrix p = toRotationMatrix q -> q = p \/ q = quat_neg p.
Proof.
  destruct p as [w x y z], q as [w' x' y' z'].
  unfold quat_squaredNorm, toRotationMatrix, quat_neg. cbv [qw qx qy qz]. unfold_R.
  intros Np Nq E. injection E as E00 E01 E02 E10 E11 E12 E20 E21 E22.
  assert (w' * w' = w * w) as Hww by lra.
  assert (x' * x' = x * x) as Hxx by lra.
  assert (y' * y' = y * y) as Hyy by lra.
  assert (z' * z' = z * z) as Hzz by lra.
  assert (w' * x' = w * x) as Hwx by lra.
  assert (w' * y' = w * y) as Hwy by lra.
  assert (w' * z' = w * z) as Hwz by lra.
  assert (x' * y' = x * y) as Hxy by lra.
  assert (x' * z' = x * z) as Hxz by lra.
  assert (y' * z' = y * z) as Hyz by lra.
  clear E00 E01 E02 E10 E11 E12 E20 E21 E22.
  destruct (Req_dec w 0) as [W|W].
  2:{ destruct (square_cases _ _ Hww) as [Hw|Hw]; [left|right].
      - rewrite (pivot_same _ _ _ _ W Hw Hwx), (pivot_same _ _ _ _ W Hw Hwy),
          (pivot_same _ _ _ _ W Hw Hwz), Hw. reflexivity.
      - rewrite (pivot_opposite _ _ _ _ W Hw Hwx), (pivot_opposite _ _ _ _ W Hw Hwy),
          (pivot_opposite _ _ _ _ W Hw Hwz), Hw. reflexivity. }
  pose proof (square_zero _ _ W Hww) as W'. subst w w'.
  replace (- 0) with 0 by ring.
  destruct (Req_dec x 0) as [X|X].
  2:{ destruct (square_cases _ _ Hxx) as [Hx|Hx]; [left|right].
      - rewrite (pivot_same _ _ _ _ X Hx Hxy), (pivot_same _ _ _ _ X Hx Hxz), Hx.
        reflexivity.
      - rewrite (pivot_opposite _ _ _ _ X Hx Hxy), (pivot_opposite _ _ _ _ X Hx Hxz), Hx.
        reflexivity. }
  pose proof (square_zero _ _ X Hxx) as X'. subst x x'.
  replace (- 0) with 0 by ring.
  destruct (Req_dec y 0) as [Y|Y].
  2:{ destruct (square_cases _ _ Hyy) as [Hy|Hy]; [left|right].
      - rewrite (pivot_same _ _ _ _ Y Hy Hyz), Hy. reflexivity.
      - rewrite (pivot_opposite _ _ _ _ Y Hy Hyz), Hy. reflexivity. }
  pose proof (square_zero _ _ Y Hyy) as Y'. subst y y'.
  replace (- 0) with 0 by ring.
  destruct (square_cases _ _ Hzz) as [-> | ->]; auto.
Qed.

(** A unit quaternion times the half turn about x: the rotation matrix
    is multiplied on the right by that half turn. *)
Lemma toRotationMatrix_half_turn_x (q : Quaternion R) :
  quat_squaredNorm q = 1 ->
  toRotationMatrix (quat_mul q quat_half_turn_x)
  = mat_mul (toRotationMatrix q) (rot_x PI).
Proof.
  destruct q as [w x y z]. unfold quat_squaredNorm, rot_x.
  rewrite cos_PI, sin_PI.
  unfold toRotationMatrix, quat_mul, quat_half_turn_x.
  cbv [qw qx qy qz]. unfold_vec. unfold_R. intros N.
  f_equal; nsatz.
Qed.

Lemma quat_mul_half_turn_x_unit (q : Quaternion R) :
  quat_squaredNorm (quat_mul q quat_half_turn_x) = quat_squaredNorm q.
Proof.
  destruct q as [w x y z]. unfold quat_squaredNorm, quat_mul, quat_half_turn_x.
  cbv [qw qx qy qz]. unfold_R. ring.
Qed.

Lemma negate_cols_rot_x (M : Mat3 R) :
  negate_cols_1_2 M = mat_mul M (rot_x PI).
Proof.
  destruct M. unfold rot_x. rewrite cos_PI, sin_PI.
  unfold_vec. unfold_R. f_equal; ring.
Qed.

End QuaternionsR.

Section TagFrameR.
Local Open Scope R_scope.

(** With a homography and a [Pinv] with determinants and orthogonal first
    two columns of [T], the matrix that [getPose] hands to the conversion
    has two orthogonal unit columns and their cross product. *)
Lemma getPose_R_frame (H0 Pinv : Mat3 R) (z_up : bool) :
  determinant H0 <> 0 -> determinant Pinv <> 0 ->
  dot (col (getPose_T H0 Pinv) 0) (col (getPose_T H0 Pinv) 1) = 0 ->
  exists u v, getPose_R H0 Pinv z_up = of_cols u v (cross u v)
              /\ dot u u = 1 /\ dot v v = 1 /\ dot u v = 0.
Proof.
  intros HH HP HO.
  assert (determinant (getPose_T H0 Pinv) <> 0) as HT.
  { unfold getPose_T. rewrite determinant_mat_mul. nra. }
  destruct (determinant_cols_pos _ HT) as [H0p H1p].
  pose proof (dot_normalized_self _ H0p) as U0.
  pose proof (dot_normalized_self _ H1p) as U1.
  pose proof (dot_normalized _ _ H0p H1p) as O. rewrite HO in O.
  unfold Rdiv in O. rewrite Rmult_0_l in O.
  unfold getPose_R. cbv zeta.
  set (c0 := normalized (col (getPose_T H0 Pinv) 0)) in *.
  set (c1 := normalized (col (getPose_T H0 Pinv) 1)) in *.
  destruct z_up; [|by exists c0, c1].
  exists c0, (vscale c1 (-1)). split_and!; [|done| |].
  - change (- sone)%S with (-1). by rewrite cross_vscale_r.
  - rewrite dot_vscale. lra.
  - clearbody c0 c1. destruct c0, c1. revert O. unfold_vec. unfold_R.
    intros O. nra.
Qed.

(** C8 (amended): the translation that [getPose] returns does not depend
    on [z_up], and the quaternion it returns with [z_up] set is the
    conversion of the matrix it converts without, with columns 1 and 2
    negated, on any scalars; over the real numbers that is the matrix
    multiplied on the right by the half turn about the x-axis.  For a
    homography and a [Pinv] with determinants such that the first two
    columns of [T = Pinv * H] are orthogonal, in exact arithmetic, the
    rotations returned with and without [z_up] differ by exactly that half
    turn about the local x-axis: as rotation matrices, and as quaternions
    up to the sign, the one being the other times (0, 1, 0, 0). *)
Theorem C8_getPose_z_up :
  (forall (A : Type) (S : Scalar A) (H0 Pinv : Mat3 A) (size : A),
     translation (getPose H0 Pinv size true)
     = translation (getPose H0 Pinv size false)
     /\ rotation (getPose H0 Pinv size true)
        = Quaternion_of_matrix (negate_cols_1_2 (getPose_R H0 Pinv false)))
  /\ (forall (H0 Pinv : Mat3 R) (size : R),
        rotation (getPose H0 Pinv size true)
        = Quaternion_of_matrix (mat_mul (getPose_R H0 Pinv false) (rot_x PI)))
  /\ (forall (H0 Pinv : Mat3 R) (size : R),
        determinant H0 <> 0 -> determinant Pinv <> 0 ->
        dot (col (getPose_T H0 Pinv) 0) (col (getPose_T H0 Pinv) 1) = 0 ->
        toRotationMatrix (rotation (getPose H0 Pinv size true))
        = mat_mul (toRotationMatrix (rotation (getPose H0 Pinv size false)))
                  (rot_x PI)
        /\ (rotation (getPose H0 Pinv size true)
            = quat_mul (rotation (getPose H0 Pinv size false)) quat_half_turn_x
            \/ rotation (getPose H0 Pinv size true)
               = quat_neg (quat_mul (rotation (getPose H0 Pinv size false))
                                    quat_half_turn_x))).
Proof.
  split_and!.
  - intros. split; reflexivity.
  - intros H0 Pinv size. rewrite <- negate_cols_rot_x. reflexivity.
  - intros H0 Pinv size HH HP HO.
    destruct (getPose_R_frame H0 Pinv true HH HP HO) as (u & v & Ht & Uu & Uv & Ouv).
    destruct (getPose_R_frame H0 Pinv false HH HP HO)
      as (u' & v' & Hf & Uu' & Uv' & Ouv').
    set (qt := rotation (getPose H0 Pinv size true)).
    set (qf := rotation (getPose H0 Pinv size false)).
    assert (toRotationMatrix qt = getPose_R H0 Pinv true) as Rt.
    { unfold qt, getPose, rotation. rewrite Ht.
      by apply Quaternion_of_matrix_round_trip. }
    assert (toRotationMatrix qf = getPose_R H0 Pinv false) as Rf.
    { unfold qf, getPose, rotation. rewrite Hf.
      by apply Quaternion_of_matrix_round_trip. }
    assert (quat_squaredNorm qt = 1) as Nt.
    { unfold qt, getPose, rotation. rewrite Ht.
      by apply Quaternion_of_matrix_unit. }
    assert (quat_squaredNorm qf = 1) as Nf.
    { unfold qf, getPose, rotation. rewrite Hf.
      by apply Quaternion_of_matrix_unit. }
    assert (toRotationMatrix qt = mat_mul (toRotationMatrix qf) (rot_x PI)) as Hm.
    { rewrite Rt, Rf, <- negate_cols_rot_x. reflexivity. }
    split; [exact Hm|].
    apply unit_quaternion_unique; [|done|].
    + by rewrite quat_mul_half_turn_x_unit.
    + by rewrite toRotationMatrix_half_turn_x, Hm.
Qed.
End TagFrameR.

(** C8 on the projection with the focal length 2 and the identity as
    [Pinv]: the first two columns are orthogonal. *)
Lemma C8_getPose_z_up_witness :
  (toRotationMatrix (rotation (getPose (leftCols3 camera_p_R) identity3_R 1 true))
   = mat_mul (toRotationMatrix
                (rotation (getPose (leftCols3 camera_p_R) identity3_R 1 false)))
             (rot_x PI))%R.
Proof.
  destruct C8_getPose_z_up as (_ & _ & Hq).
  refine (proj1 (Hq (leftCols3 camera_p_R) identity3_R 1%R _ _ _)).
  - unfold camera_p_R, leftCols3. cbn [nth]. unfold_vec. unfold_R. lra.
  - unfold identity3_R. unfold_vec. unfold_R. lra.
  - unfold camera_p_R, leftCols3, identity3_R. cbn [nth]. unfold_vec. unfold_R. lra.
Defined.

(** C8, as stated, fails on the quaternions that [getPose] returns.  For
    the homography [skew3], of determinant 1, the rotation returned with
    [z_up] has a w coefficient above 0.5 and the y coefficient zero, while
    the y coefficient of the rotation returned without, turned by the half
    turn about x, is below -0.125: the two are neither equal nor opposite,
    nor multiples of each other.  For [flat3], with a zero second
    column, [z_up] does not change the rotation but for the sign of a
    zero, and the half turn does: the w coefficient is above 0.5 with
    and without [z_up], and zero after the half turn. *)
Lemma C8_counterexample :
  determinant skew3 = 1%float
  /\ PrimFloat.ltb 0.5%float
       (qw (rotation (getPose skew3 identity3 1%float true))) = true
  /\ PrimFloat.is_zero (qy (rotation (getPose skew3 identity3 1%float true))) = true
  /\ PrimFloat.ltb
       (qy (quat_mul (rotation (getPose skew3 identity3 1%float false))
                     quat_half_turn_x))
       (-0.125)%float = true
  /\ PrimFloat.ltb 0.5%float
       (qw (rotation (getPose flat3 identity3 1%float true))) = true
  /\ qw (rotation (getPose flat3 identity3 1%float true))
     = qw (rotation (getPose flat3 identity3 1%float false))
  /\ PrimFloat.is_zero
       (qw (quat_mul (rotation (getPose flat3 identity3 1%float false))
                     quat_half_turn_x)) = true.
Proof. repeat split. Qed.

(** ** The mutex across the calls *)

Section MutexFacts.
Context {A : Type} `{Scalar A} `{External A}.
Abbreviation Node := (AprilTagNode A apriltag_family_t).
Implicit Types (node : Node) (p : rclcpp_Parameter A).

(** X2: a batch is applied up to its first update that is not well-typed,
    and the exception leaves the mutex held.  Called with the mutex free,
    [onParameter] ends at that update with [InvalidParameterTypeException]
    for its name; the configuration is the one after the updates before
    it, the updates after it are not looked at, and the mutex stays
    locked.  From then on a call of [onParameter] and a frame that gets as
    far as the detection do not return and change or put out nothing.  A
    batch of well-typed updates returns with the mutex free. *)
Theorem onParameter_locking_ill_typed node ps1 p ps2 :
  Forall (fun q => well_typed q = true) ps1 ->
  well_typed p = false ->
  onParameter_locking false node (ps1 ++ p :: ps2)
  = (true, (onParameter_loop node ps1).1,
     thrown (InvalidParameterTypeException (get_name p)))
  /\ onParameter_locking false node ps1
     = (false, (onParameter_loop node ps1).1, returned (mkResult true ""))
  /\ (forall node' ps, onParameter_locking true node' ps = (true, node', blocked))
  /\ (forall node' (msg_img : Image) (msg_ci : CameraInfo A) im,
        enabled node' = true -> toCvShare_mono8 msg_img = Some im ->
        onCamera_locking true node' msg_img msg_ci = (true, [], blocked)).
Proof.
  intros Hwt Hp. pose proof (onParameter_loop_well_typed ps1 node Hwt) as Hn.
  split_and!.
  - unfold onParameter_locking. rewrite onParameter_loop_app by done.
    cbn. by rewrite (ill_typed_body _ p Hp).
  - unfold onParameter_locking.
    destruct (onParameter_loop node ps1) as [node1 [e|]]; [discriminate|done].
  - done.
  - intros node' msg_img msg_ci im He Him. unfold onCamera_locking.
    by rewrite He, Him.
Qed.
End MutexFacts.

(** X2 on the bench: the threshold is set, the string for the switch
    throws with the mutex held, the update after it is lost. *)
Lemma onParameter_locking_ill_typed_witness :
  onParameter_locking false (bench_node true)
    ([mkParameter "max_hamming" (PARAMETER_INTEGER 2)]
       ++ mkParameter "enabled" (PARAMETER_STRING "yes")
       :: [mkParameter "z_up" (PARAMETER_BOOL false)])
  = (true, set_max_hamming 2 (bench_node true),
     thrown (InvalidParameterTypeException "enabled"))
  /\ onCamera_locking true (set_max_hamming 2 (bench_node true))
       bench_image bench_camera_info
     = (true, [], blocked).
Proof.
  destruct (onParameter_locking_ill_typed (bench_node true)
              [mkParameter "max_hamming" (PARAMETER_INTEGER 2)]
              (mkParameter "enabled" (PARAMETER_STRING "yes"))
              [mkParameter "z_up" (PARAMETER_BOOL false)]
              ltac:(repeat constructor) eq_refl) as (Ht & _ & _ & Hc).
  split; [exact Ht|].
  exact (Hc (set_max_hamming 2 (bench_node true)) bench_image bench_camera_info
            (snd bench_image) eq_refl eq_refl).
Defined.

(** ** The constructor with parameter overrides *)

Section OptionsFacts.
Context {A : Type} `{Scalar A} `{External A}.
Abbreviation Node := (AprilTagNode A apriltag_family_t).
Implicit Types (overrides : gmap string (ParameterValue A)).






End OptionsFacts.

